(** * pdfreader: the LZW filter and the text operators of the simple viewer

    A shallow embedding of [pdfreader/filters/lzw.py] and of
    [pdfreader/viewer/simple.py], with the properties of the design notes
    stated over it.

    Python values are modelled as follows: integers are [Z]; a [bytes] value
    and any iterable of byte values is a [list Z]; a [dict] keyed by integers
    is a [gmap Z _]; an exception is a constructor of [exn], and a call that
    may raise returns a [result]. *)

From Stdlib Require Import ZArith List Lia Ascii String DecimalString.
From stdpp Require Import base option list gmap strings.

Open Scope Z_scope.

(** ** Python exceptions *)

Module Py.

Inductive exn : Type :=
| ValueError
| TypeError
| IndexError
| KeyError
| AttributeError.

Inductive result (A : Type) : Type :=
| Ok (a : A)
| Raise (e : exn).

Arguments Ok {A} a.
Arguments Raise {A} e.

Definition bind {A B : Type} (r : result A) (k : A -> result B) : result B :=
  match r with
  | Ok a => k a
  | Raise e => Raise e
  end.

Definition is_ok {A : Type} (r : result A) : bool :=
  match r with
  | Ok _ => true
  | Raise _ => false
  end.

(** The values the LZW code book holds and the decoder passes around:
    [None], a [bytes] value, an [int]. *)
Inductive pyval : Type :=
| PyNone
| PyBytes (b : list Z)
| PyInt (n : Z).

#[export] Instance pyval_eq_dec : EqDecision pyval.
Proof. solve_decision. Defined.

(** [a + b] *)
Definition py_add (a b : pyval) : result pyval :=
  match a, b with
  | PyBytes x, PyBytes y => Ok (PyBytes (x ++ y))
  | PyInt x, PyInt y => Ok (PyInt (x + y))
  | _, _ => Raise TypeError
  end.

(** [v[0:1]] *)
Definition py_slice01 (v : pyval) : result pyval :=
  match v with
  | PyBytes x => Ok (PyBytes (take 1 x))
  | _ => Raise TypeError
  end.

(** The call raises no exception but [ValueError]. *)
Definition raises_ValueError_only {A : Type} (r : result A) : Prop :=
  forall e, r = Raise e -> e = ValueError.

(** [[f(x) for x in l]]: the elements from left to right, up to the first
    call that raises. *)
Fixpoint for_each {A B : Type} (f : A -> result B) (l : list A) : result (list B) :=
  match l with
  | [] => Ok []
  | x :: rest =>
      match f x with
      | Ok y =>
          match for_each f rest with
          | Ok ys => Ok (y :: ys)
          | Raise e => Raise e
          end
      | Raise e => Raise e
      end
  end.

(** The bytes of an ASCII text, as [b'...'] denotes them. *)
Definition bytes_of_text (s : string) : list Z :=
  map (fun a => Z.of_N (N_of_ascii a)) (list_ascii_of_string s).

(** [while cond(w): w = w + 1], run for at most [fuel] tests of [cond]. *)
Fixpoint while_incr (cond : Z -> bool) (fuel : nat) (w : Z) : Z :=
  match fuel with
  | O => w
  | S fuel' => if cond w then while_incr cond fuel' (w + 1) else w
  end.

End Py.

Export Py.

#[export] Instance result_ret : MRet result := @Ok.
#[export] Instance result_bind : MBind result := fun A B k r => bind r k.
#[export] Instance result_fmap : FMap result :=
  fun A B f r => bind r (fun a => Ok (f a)).

(** ** filters/lzw.py *)

Module Lzw.

Definition CLEAR_CODE : Z := 256.
Definition END_OF_INFO_CODE : Z := 257.

Definition DEFAULT_MIN_BITS : Z := 9.
Definition DEFAULT_MAX_BITS : Z := 12.

(** [bytestobits]: the eight bits of every value, most significant first;
    [bitplusone] runs over [range(8, 0, -1)]. *)
Definition bits_of_value (value : Z) : list Z :=
  map (fun bitplusone => let bitindex := bitplusone - 1 in
                         Z.land 1 (Z.shiftr value bitindex))
      [8; 7; 6; 5; 4; 3; 2; 1].

Definition bytestobits (bytesource : list Z) : list Z :=
  concat (map bits_of_value bytesource).

(** [intfrombits]: [lsb_first] is the reversed list; every truthy bit at
    [bit_index] sets [1 << bit_index] in [ret]. *)
Fixpoint intfrombits_loop (lsb_first : list Z) (bit_index : Z) (ret : Z) : Z :=
  match lsb_first with
  | [] => ret
  | b :: rest =>
      intfrombits_loop rest (bit_index + 1)
        (if b =? 0 then ret else Z.lor ret (Z.shiftl 1 bit_index))
  end.

Definition intfrombits (bits : list Z) : Z :=
  intfrombits_loop (rev bits) 0 0.

(** *** BitUnpacker *)

(** The local variables of [BitUnpacker.unpack]. *)
Record unpack_state : Type := mk_unpack_state {
  bits : list Z;
  offset : Z;
  ignore : Z;
  codesize : Z;
  pointwidth : Z
}.

(** What is observed at a [yield]: the code point, with the width of the
    group it was read from and the code size counter at that moment. *)
Record emission : Type := mk_emission {
  em_codepoint : Z;
  em_width : Z;
  em_codesize : Z
}.

(** [minwidth = 8; while (1 << minwidth) < codesize: minwidth += 1] *)
Definition minwidth_of (initial_code_size : Z) : Z :=
  while_incr (fun w => Z.shiftl 1 w <? initial_code_size)
             (S (Z.to_nat initial_code_size)) 8.

(** [while codesize >= (2 ** pointwidth): pointwidth += 1] *)
Definition grow_width (codesize pointwidth : Z) : Z :=
  while_incr (fun w => codesize >=? 2 ^ w)
             (S (Z.to_nat codesize + Z.to_nat (- pointwidth))) pointwidth.

(** One turn of the [for nextbit in bytestobits(bytesource)] loop. *)
Definition unpack_step (initial_code_size minwidth : Z)
    (st : unpack_state) (nextbit : Z) : unpack_state * option emission :=
  let offset' := (offset st + 1) mod 8 in
  if ignore st >? 0 then
    (mk_unpack_state (bits st) offset' (ignore st - 1) (codesize st) (pointwidth st),
     None)
  else
    let bits' := bits st ++ [nextbit] in
    if Z.of_nat (length bits') =? pointwidth st then
      let codepoint := intfrombits bits' in
      let codesize' := codesize st + 1 in
      let '(codesize'', pointwidth') :=
        if (codepoint =? CLEAR_CODE) || (codepoint =? END_OF_INFO_CODE)
        then (initial_code_size, minwidth)
        else (codesize', grow_width codesize' (pointwidth st)) in
      let ignore' :=
        if codepoint =? END_OF_INFO_CODE then (8 - offset') mod 8
        else ignore st in
      (mk_unpack_state [] offset' ignore' codesize'' pointwidth',
       Some (mk_emission codepoint (pointwidth st) (codesize st)))
    else
      (mk_unpack_state bits' offset' (ignore st) (codesize st) (pointwidth st),
       None).

Fixpoint unpack_loop (initial_code_size minwidth : Z)
    (st : unpack_state) (bitsource : list Z) : list emission :=
  match bitsource with
  | [] => []
  | nextbit :: rest =>
      let '(st', out) := unpack_step initial_code_size minwidth st nextbit in
      match out with
      | Some e => e :: unpack_loop initial_code_size minwidth st' rest
      | None => unpack_loop initial_code_size minwidth st' rest
      end
  end.

(** The local variables once the loop has read [bitsource]. *)
Fixpoint unpack_state_after (initial_code_size minwidth : Z)
    (st : unpack_state) (bitsource : list Z) : unpack_state :=
  match bitsource with
  | [] => st
  | nextbit :: rest =>
      unpack_state_after initial_code_size minwidth
        (unpack_step initial_code_size minwidth st nextbit).1 rest
  end.

Definition unpack_init (initial_code_size : Z) : unpack_state :=
  mk_unpack_state [] 0 0 initial_code_size (minwidth_of initial_code_size).

Definition unpack_emissions (initial_code_size : Z) (bytesource : list Z)
    : list emission :=
  unpack_loop initial_code_size (minwidth_of initial_code_size)
    (unpack_init initial_code_size) (bytestobits bytesource).

(** [BitUnpacker(initial_code_size).unpack(bytesource)], all code points the
    generator yields. *)
Definition unpack (initial_code_size : Z) (bytesource : list Z) : list Z :=
  map em_codepoint (unpack_emissions initial_code_size bytesource).

(** The two control codes, as [codepoint in [CLEAR_CODE, END_OF_INFO_CODE]]
    tests them. *)
Definition is_control (codepoint : Z) : bool :=
  (codepoint =? CLEAR_CODE) || (codepoint =? END_OF_INFO_CODE).

(** The number of code points that follow the last control code of
    [codepoints], counted from [n] when there is none. *)
Fixpoint since_reset_from (n : Z) (codepoints : list Z) : Z :=
  match codepoints with
  | [] => n
  | cp :: rest =>
      if is_control cp then since_reset_from 0 rest
      else since_reset_from (n + 1) rest
  end.

Definition since_reset (codepoints : list Z) : Z :=
  since_reset_from 0 codepoints.

(** The width is the bit length of the code size counter. *)
Definition width_fits (codesize pointwidth : Z) : Prop :=
  9 <= pointwidth /\ 2 ^ (pointwidth - 1) <= codesize < 2 ^ pointwidth.

(** *** Decoder *)

(** The attributes [_codepoints] and [_prefix]; [remainder] is assigned once
    and never read. *)
Record Decoder : Type := mk_Decoder {
  _codepoints : gmap Z pyval;
  _prefix : pyval
}.

(** [struct.pack("B", pt)] for [pt] in [range(256)] *)
Definition pack_B (pt : Z) : pyval := PyBytes [pt].

(** [Decoder._clear_codes]: both attributes are assigned afresh. *)
Definition _clear_codes : Decoder :=
  let _codepoints0 : gmap Z pyval :=
    list_to_map (map (fun pt => (pt, pack_B pt)) (seqZ 0 256)) in
  let _codepoints1 := <[CLEAR_CODE := PyInt CLEAR_CODE]> _codepoints0 in
  let _codepoints2 := <[END_OF_INFO_CODE := PyInt END_OF_INFO_CODE]> _codepoints1 in
  mk_Decoder _codepoints2 PyNone.

(** [Decoder.__init__] *)
Definition Decoder_new : Decoder := _clear_codes.

(** [Decoder.code_size] *)
Definition code_size (self : Decoder) : Z := Z.of_nat (size (_codepoints self)).

(** [Decoder._decode_codepoint]: the returned value with the decoder as the
    call leaves it. *)
Definition _decode_codepoint (self : Decoder) (codepoint : Z)
    : result (pyval * Decoder) :=
  let ret := PyBytes [] in
  if codepoint =? CLEAR_CODE then
    Ok (ret, _clear_codes)
  else if codepoint =? END_OF_INFO_CODE then
    Raise ValueError
  else
    match _codepoints self !! codepoint with
    | Some ret' =>
        match _prefix self with
        | PyNone => Ok (ret', mk_Decoder (_codepoints self) ret')
        | prefix =>
            first ← py_slice01 ret';
            new ← py_add prefix first;
            Ok (ret', mk_Decoder (<[code_size self := new]> (_codepoints self)) ret')
        end
    | None =>
        first ← py_slice01 ret;
        ret' ← py_add (_prefix self) first;
        Ok (ret', mk_Decoder (<[code_size self := ret']> (_codepoints self)) ret')
    end.

(** The [for cp in codepoints: decoded += self._decode_codepoint(cp)] loop of
    [Decoder.decode]. *)
Fixpoint decode_loop (self : Decoder) (decoded : pyval) (codepoints : list Z)
    : result (pyval * Decoder) :=
  match codepoints with
  | [] => Ok (decoded, self)
  | cp :: rest =>
      '(ret, self') ← _decode_codepoint self cp;
      decoded' ← py_add decoded ret;
      decode_loop self' decoded' rest
  end.

(** [Decoder.decode] *)
Definition Decoder_decode (self : Decoder) (codepoints : list Z)
    : result (pyval * Decoder) :=
  decode_loop self (PyBytes []) codepoints.

Definition is_PyNone (v : pyval) : bool :=
  match v with
  | PyNone => true
  | _ => false
  end.

(** The keys of the code book are [0 .. code_size - 1], no entry is [None],
    and the prefix is [None] only over the initial code book. *)
Definition codebook_ok (d : Decoder) : Prop :=
  (forall k, is_Some (_codepoints d !! k) <-> 0 <= k < code_size d) /\
  (forall k v, _codepoints d !! k = Some v -> is_PyNone v = false) /\
  (is_PyNone (_prefix d) = true -> code_size d = 258).

(** A decoder that has decoded [codepoints] since its construction stands
    right after a reset when it has decoded nothing yet ([__init__] runs
    [_clear_codes]) or when the last code point was CLEAR. *)
Definition after_reset (codepoints : list Z) : bool :=
  match last codepoints with
  | None => true
  | Some cp => cp =? CLEAR_CODE
  end.

Definition is_PyBytes (v : pyval) : bool :=
  match v with
  | PyBytes _ => true
  | _ => false
  end.

(** Beyond [codebook_ok]: the code book has its 258 initial keys, the
    entries of the byte values are untouched, every entry but those of the
    two control codes is a [bytes] value, and so is the prefix unless it is
    [None]. *)
Definition codebook_bytes (d : Decoder) : Prop :=
  codebook_ok d /\
  258 <= code_size d /\
  (forall k, 0 <= k < 256 -> _codepoints d !! k = Some (PyBytes [k])) /\
  (forall k v, is_control k = false -> _codepoints d !! k = Some v ->
               is_PyBytes v = true) /\
  (is_PyNone (_prefix d) = true \/ is_PyBytes (_prefix d) = true).

(** *** ByteDecoder *)

Record ByteDecoder : Type := mk_ByteDecoder {
  _decoder : Decoder;
  _unpacker_initial_code_size : Z
}.

(** [ByteDecoder.__init__] *)
Definition ByteDecoder_new : ByteDecoder :=
  let _decoder := Decoder_new in
  mk_ByteDecoder _decoder (code_size _decoder).

(** [ByteDecoder.decodefrombytes] *)
Definition decodefrombytes (self : ByteDecoder) (bytesource : list Z)
    : result pyval :=
  let codepoints := unpack (_unpacker_initial_code_size self) bytesource in
  '(clearbytes, _) ← Decoder_decode (_decoder self) codepoints;
  Ok clearbytes.

(** [decompress] *)
Definition decompress (compressed_bytes : list Z) : result pyval :=
  let decoder := ByteDecoder_new in
  decodefrombytes decoder compressed_bytes.

(** *** The filter entry point *)

Section Filter.

(** [_remove_predictors] is imported from [filters/predictors.py] and the type
    of the values of [params] is that of its two arguments. *)
Variable V : Type.
Variable _remove_predictors : pyval -> option V -> option V -> result pyval.

(** [decode]: [except ValueError] replaces the data by [b'']; any other
    exception leaves the function. *)
Definition decode (data : list Z) (params : gmap string V) : result pyval :=
  match
    data' ← decompress data;
    _remove_predictors data' (params !! "Predictor"%string) (params !! "Columns"%string)
  with
  | Ok data' => Ok data'
  | Raise ValueError => Ok (PyBytes [])
  | Raise e => Raise e
  end.

End Filter.

End Lzw.

(** ** viewer/simple.py *)

Module Viewer.

(** Modelled from the spec: the operand values of [types/native.py] and
    [types/content.py], two modules the viewer imports and whose text is not
    available. The data model lists null,
    boolean, name, literal string, hex string, integer, real, array,
    dictionary with its insertion order, operator and inline image. [Name],
    [String] and [HexString] are subclasses of [str], as ["/" + obj] and the
    [isinstance(obj, str)] test of the serializer use them; [PStr] is a plain
    [str]; a [Decimal] is kept as the text [str] gives for it; [POther] is an
    object of none of these classes, with no length. *)
Unset Elimination Schemes.

Inductive pyobj : Type :=
| PNone
| PBoolean (b : bool)
| PName (s : string)
| PString (s : string)
| PHexString (s : string)
| PStr (s : string)
| PInteger (n : Z)
| PDecimal (text : string)
| PArray (elms : list pyobj)
| PDictionary (items : list (string * pyobj))
| POperator (name : string) (args : list pyobj)
| PInlineImage (dictionary : list (string * pyobj)) (filtered : list Z)
| POther (text : string).

Set Elimination Schemes.

(** An [Operator] object: [obj.name] and [obj.args]. *)
Record Operator : Type := mk_Operator {
  name : string;
  args : list pyobj
}.

Definition pyobj_of (op : Operator) : pyobj := POperator (name op) (args op).

(** A string decoder of [codecs/decoder.py]: an instance built from a font
    description by [Decoder(font)], or the module level [default_decoder]. *)
Inductive StringDecoder (Font : Type) : Type :=
| Decoder (font : Font)
| default_decoder.

Arguments Decoder {Font} font.
Arguments default_decoder {Font}.

(** What the module imports and calls without defining it: the font
    descriptions of the resource environment, the graphics state with its
    [font_name] property and its [Font] attribute, the two decoding methods of
    a string decoder, [pdf_escape_string], and [base64.b85encode] read as
    ASCII text. A font name is a [str] or [None]. *)
Class Collaborators : Type := {
  Font : Type;
  GraphicsState : Type;
  font_name : GraphicsState -> option string;
  set_Font : list pyobj -> GraphicsState -> GraphicsState;
  Decoder_decode_string : StringDecoder Font -> pyobj -> result string;
  Decoder_decode_hexstring : StringDecoder Font -> pyobj -> result string;
  pdf_escape_string : string -> string;
  b85encode : list Z -> string
}.

Definition newline : string := String "010"%char EmptyString.

(** [str(obj)] for an [int] and for a [bool], and [str.lower] *)
Definition str_int (n : Z) : string := NilZero.string_of_int (Z.to_int n).

Definition str_bool (b : bool) : string :=
  if b then "True"%string else "False"%string.

Definition lower_ascii (a : ascii) : ascii :=
  let n := nat_of_ascii a in
  if ((65 <=? n) && (n <=? 90))%nat then ascii_of_nat (n + 32) else a.

Fixpoint lower (s : string) : string :=
  match s with
  | EmptyString => EmptyString
  | String a rest => String (lower_ascii a) (lower rest)
  end.

(** ["/{} {}".format(k, v)] *)
Definition format_entry (k v : string) : string :=
  ("/" +:+ k +:+ " " +:+ v)%string.

(** The keys of an inline image that the serializer leaves out. *)
Definition kept (entry : string * pyobj) : Prop :=
  entry.1 ∉ ["F"; "Filter"; "DecodeParms"]%string.

#[export] Instance kept_dec (entry : string * pyobj) : Decision (kept entry).
Proof. unfold kept. apply _. Defined.

(** The objects made of the classes the serializer tests for, all the way
    down; under the left out keys of an inline image anything may stand. *)
Fixpoint serializable (obj : pyobj) : bool :=
  match obj with
  | POther _ => false
  | PArray elms => forallb serializable elms
  | PDictionary items => forallb (fun '(_, v) => serializable v) items
  | POperator _ args => forallb serializable args
  | PInlineImage dictionary _ =>
      forallb (fun '(k, v) => negb (bool_decide (kept (k, v))) || serializable v)
              dictionary
  | _ => true
  end.

(** The elements that [on_TJ] decodes. *)
Definition is_text (elm : pyobj) : bool :=
  match elm with
  | PString _ | PHexString _ => true
  | _ => false
  end.

Section Serializer.

Context {collab : Collaborators}.

(** [object_to_string]. The list comprehensions serialize their elements from
    left to right and stop at the first one that raises. *)
Fixpoint object_to_string (obj : pyobj) : result string :=
  match obj with
  | PNone => Ok "null"%string
  | PBoolean b => Ok (lower (str_bool b))
  | PName s => Ok ("/" +:+ s)%string
  | PString s | PHexString s | PStr s => Ok s
  | PInteger n => Ok (str_int n)
  | PDecimal text => Ok text
  | PArray elms =>
      parts ← (fix each (l : list pyobj) : result (list string) :=
                 match l with
                 | [] => Ok []
                 | elm :: rest =>
                     s ← object_to_string elm;
                     ss ← each rest;
                     Ok (s :: ss)
                 end) elms;
      Ok ("[" +:+ String.concat " " parts +:+ "]")%string
  | PDictionary items =>
      parts ← (fix each (l : list (string * pyobj)) : result (list string) :=
                 match l with
                 | [] => Ok []
                 | (k, v) :: rest =>
                     s ← object_to_string v;
                     ss ← each rest;
                     Ok (format_entry k s :: ss)
                 end) items;
      Ok ("<<" +:+ String.concat " " parts +:+ ">>")%string
  | POperator name args =>
      parts ← (fix each (l : list pyobj) : result (list string) :=
                 match l with
                 | [] => Ok []
                 | a :: rest =>
                     s ← object_to_string a;
                     ss ← each rest;
                     Ok (s :: ss)
                 end) args;
      let operands := String.concat " " parts in
      Ok (newline +:+ operands +:+ " " +:+ name)%string
  | PInlineImage dictionary filtered =>
      parts ← (fix each (l : list (string * pyobj)) : result (list string) :=
                 match l with
                 | [] => Ok []
                 | (k, v) :: rest =>
                     if bool_decide (k ∈ ["F"; "Filter"; "DecodeParms"]%string)
                     then each rest
                     else
                       s ← object_to_string v;
                       ss ← each rest;
                       Ok (format_entry k s :: ss)
                 end) dictionary;
      let entries := (String.concat " " parts +:+ " /Filter /ASCII85Decode")%string in
      let content := (b85encode filtered +:+ "~>")%string in
      Ok (newline +:+ "BI" +:+ newline +:+ entries +:+ newline +:+ "ID"
          +:+ newline +:+ content +:+ newline +:+ "EI")%string
  | POther _ => Raise ValueError
  end.

End Serializer.

(** *** TextOperatorsMixin *)

(** The attributes of the canvas that the mixin writes. *)
Record Canvas : Type := mk_Canvas {
  text_content : string;
  strings : list string;
  inline_images : list pyobj
}.

(** [operators_aliases] *)
Definition operators_aliases : list (string * string) :=
  [("'", "apostrophe"); (String "034"%char EmptyString, "quotation");
   ("T*", "Tstar")]%string.

Section Mixin.

Context {collab : Collaborators}.

(** The viewer object: [bracket_commands_stack], [_decoders],
    [resources.Font], [gss.state] and [canvas]. The last three fields are not
    attributes of the Python object: they record, in order, the font names
    under which the [decoder] property was read, those for which it ran
    [Decoder(...)], and those for which it took [default_decoder]. *)
Record Viewer : Type := mk_Viewer {
  bracket_commands_stack : list Operator;
  _decoders : gmap (option string) (StringDecoder Font);
  resources_Font : gmap string Font;
  gss_state : GraphicsState;
  canvas : Canvas;
  decoder_reads : list (option string);
  decoder_constructions : list (option string);
  decoder_defaults : list (option string)
}.

(** [TextOperatorsMixin.__init__], over the graphics state, the resources and
    the canvas the base class sets up. *)
Definition Viewer_new (resources_Font : gmap string Font)
    (gss_state : GraphicsState) (canvas : Canvas) : Viewer :=
  mk_Viewer [] ∅ resources_Font gss_state canvas [] [] [].

(** A method of the viewer: it returns or raises, and leaves the viewer as
    it was at that moment. *)
Definition M (A : Type) : Type := Viewer -> result A * Viewer.

Definition M_ret {A : Type} (a : A) : M A := fun self => (Ok a, self).

Definition M_raise {A : Type} (e : exn) : M A := fun self => (Raise e, self).

Definition M_bind {A B : Type} (m : M A) (k : A -> M B) : M B :=
  fun self =>
    match m self with
    | (Ok a, self') => k a self'
    | (Raise e, self') => (Raise e, self')
    end.

(** A call that does not touch the viewer. *)
Definition M_lift {A : Type} (r : result A) : M A := fun self => (r, self).

#[global] Instance M_mret : MRet M := @M_ret.
#[global] Instance M_mbind : MBind M := fun A B k m => M_bind m k.

(** [mode] *)
Definition mode (self : Viewer) : option string :=
  name <$> last (bracket_commands_stack self).

(** [name in self.resources.Font], with the entry *)
Definition Font_entry (self : Viewer) (name : option string) : option Font :=
  name ≫= fun n => resources_Font self !! n.

(** [decoder] *)
Definition decoder : M (StringDecoder Font) := fun self =>
  let name := font_name (gss_state self) in
  let reads := decoder_reads self ++ [name] in
  match _decoders self !! name with
  | Some obj =>
      (Ok obj,
       mk_Viewer (bracket_commands_stack self) (_decoders self)
         (resources_Font self) (gss_state self) (canvas self)
         reads (decoder_constructions self) (decoder_defaults self))
  | None =>
      match Font_entry self name with
      | Some font =>
          let obj := Decoder font in
          (Ok obj,
           mk_Viewer (bracket_commands_stack self) (<[name := obj]> (_decoders self))
             (resources_Font self) (gss_state self) (canvas self)
             reads (decoder_constructions self ++ [name]) (decoder_defaults self))
      | None =>
          let obj := default_decoder in
          (Ok obj,
           mk_Viewer (bracket_commands_stack self) (<[name := obj]> (_decoders self))
             (resources_Font self) (gss_state self) (canvas self)
             reads (decoder_constructions self) (decoder_defaults self ++ [name]))
      end
  end.

(** [decode_string] *)
Definition decode_string (s : pyobj) : M string :=
  d ← decoder;
  match s with
  | PHexString _ => M_lift (Decoder_decode_hexstring d s)
  | _ => M_lift (Decoder_decode_string d s)
  end.

Definition set_canvas (f : Canvas -> Canvas) : M unit := fun self =>
  (Ok tt,
   mk_Viewer (bracket_commands_stack self) (_decoders self)
     (resources_Font self) (gss_state self) (f (canvas self))
     (decoder_reads self) (decoder_constructions self) (decoder_defaults self)).

Definition set_gss_state (f : GraphicsState -> GraphicsState) : M unit := fun self =>
  (Ok tt,
   mk_Viewer (bracket_commands_stack self) (_decoders self)
     (resources_Font self) (f (gss_state self)) (canvas self)
     (decoder_reads self) (decoder_constructions self) (decoder_defaults self)).

Definition set_bracket_commands_stack (f : list Operator -> list Operator)
    : M unit := fun self =>
  (Ok tt,
   mk_Viewer (f (bracket_commands_stack self)) (_decoders self)
     (resources_Font self) (gss_state self) (canvas self)
     (decoder_reads self) (decoder_constructions self) (decoder_defaults self)).

(** The viewer with another bracket stack. *)
Definition with_stack (stack : list Operator) (self : Viewer) : Viewer :=
  (set_bracket_commands_stack (fun _ => stack) self).2.

(** The top of the bracket stack is a BT operator. *)
Definition inside_text (self : Viewer) : Prop :=
  exists (below : list Operator) (top : Operator),
    bracket_commands_stack self = below ++ [top] /\ name top = "BT"%string.

(** [self.canvas.strings.append(s)] *)
Definition strings_append (s : string) : M unit :=
  set_canvas (fun c => mk_Canvas (text_content c) (strings c ++ [s]) (inline_images c)).

(** [after_handler] *)
Definition after_handler (obj : pyobj) : M unit :=
  s ← M_lift (object_to_string obj);
  set_canvas (fun c => mk_Canvas (text_content c +:+ s) (strings c) (inline_images c)).

(** [on_inline_image] *)
Definition on_inline_image (obj : pyobj) : M unit :=
  set_canvas (fun c => mk_Canvas (text_content c) (strings c) (inline_images c ++ [obj])).

(** A handler is called with the operator object and may assign to its
    attributes: it returns the operator as the call leaves it. *)
Definition handler : Type := Operator -> M Operator.

(** [on_BT] *)
Definition on_BT : handler := fun op =>
  fun self =>
    if bool_decide (mode self = Some "BT"%string) then
      (Raise ValueError, self)
    else
      (_ ← set_bracket_commands_stack (fun stack => stack ++ [op]);
       mret op) self.

(** [on_ET] *)
Definition on_ET : handler := fun op =>
  fun self =>
    if bool_decide (mode self ≠ Some "BT"%string) then
      (Raise ValueError, self)
    else
      (_ ← set_bracket_commands_stack (@removelast Operator);
       mret op) self.

(** [on_Tf] *)
Definition on_Tf : handler := fun op =>
  _ ← set_gss_state (set_Font (args op));
  mret op.

(** ["({})".format(pdf_escape_string(s))] *)
Definition escaped (s : string) : pyobj :=
  PStr ("(" +:+ pdf_escape_string s +:+ ")")%string.

(** [on_Tj] *)
Definition on_Tj : handler := fun op =>
  match args op with
  | [] => M_raise IndexError
  | arg0 :: _ =>
      s ← decode_string arg0;
      _ ← strings_append s;
      mret (mk_Operator (name op) [escaped s])
  end.

Definition on_apostrophe : handler := on_Tj.

(** The loop of [on_TJ] over the elements of an array. *)
Fixpoint on_TJ_loop (arr : list pyobj) : M (list pyobj) :=
  match arr with
  | [] => mret []
  | elm :: rest =>
      elm' ← match elm with
             | PHexString _ | PString _ =>
                 s ← decode_string elm;
                 _ ← strings_append s;
                 mret (escaped s)
             | _ => mret elm
             end;
      rest' ← on_TJ_loop rest;
      mret (elm' :: rest')
  end.

(** [on_TJ]. Over a [str] every [arr[i]] is a plain [str] of one character
    and nothing is decoded; over a dictionary with entries [arr[0]] raises
    [KeyError], its keys being names; the other values have no [len]. *)
Definition on_TJ : handler := fun op =>
  match args op with
  | [] => M_raise IndexError
  | arr :: others =>
      match arr with
      | PArray elms =>
          elms' ← on_TJ_loop elms;
          mret (mk_Operator (name op) (PArray elms' :: others))
      | PName _ | PString _ | PHexString _ | PStr _ => mret op
      | PDictionary [] => mret op
      | PDictionary (_ :: _) => M_raise KeyError
      | _ => M_raise TypeError
      end
  end.

Definition on_quotation : handler := on_TJ.

(** [on_Tstar] *)
Definition on_Tstar : handler := fun op => mret op.

(** The outcome of a handler, with the operator under another name. *)
Definition renamed (n : string) (r : result Operator * Viewer)
    : result Operator * Viewer :=
  ((fun op => mk_Operator n (args op)) <$> r.1, r.2).

(** What a handler that only shows text leaves alone: graphics state, bracket
    stack, resources, reconstructed text and inline images. *)
Definition shows_text_only (self self' : Viewer) : Prop :=
  gss_state self' = gss_state self /\
  bracket_commands_stack self' = bracket_commands_stack self /\
  resources_Font self' = resources_Font self /\
  text_content (canvas self') = text_content (canvas self) /\
  inline_images (canvas self') = inline_images (canvas self).

(** The decoder cache agrees with its history: every cached name was set up
    once, by [Decoder(...)] when the resources have the font and by
    [default_decoder] when they have not, and the cached names are those
    under which [decoder] was read. *)
Definition cache_ok (resources : gmap string Font) (self : Viewer) : Prop :=
  resources_Font self = resources /\
  NoDup (decoder_constructions self ++ decoder_defaults self) /\
  (forall n, n ∈ decoder_constructions self ++ decoder_defaults self
             <-> is_Some (_decoders self !! n)) /\
  (forall n, n ∈ decoder_reads self <-> is_Some (_decoders self !! n)) /\
  (forall n, n ∈ decoder_constructions self -> is_Some (Font_entry self n)) /\
  (forall n, n ∈ decoder_defaults self -> Font_entry self n = None) /\
  size (_decoders self)
  = length (decoder_constructions self ++ decoder_defaults self).

(** A method keeps a property of the viewer. *)
Definition keeps (I : Viewer -> Prop) {A : Type} (m : M A) : Prop :=
  forall self : Viewer, I self -> I (m self).2.

(** The decoder the [decoder] property sets up for a font name over the
    given resources. *)
Definition decoder_for (resources : gmap string Font) (name : option string)
    : StringDecoder Font :=
  match name ≫= fun n => resources !! n with
  | Some font => Decoder font
  | None => default_decoder
  end.

(** The bracket stack is empty or holds one BT operator. *)
Definition at_most_one_BT (self : Viewer) : Prop :=
  bracket_commands_stack self = [] \/
  exists op, bracket_commands_stack self = [op] /\ name op = "BT"%string.



(** A method keeps the cache in agreement with its history. *)
Definition preserves (resources : gmap string Font) {A : Type} (m : M A) : Prop :=
  forall self : Viewer, cache_ok resources self -> cache_ok resources (m self).2.

(** The handlers in the namespace of the class, by attribute name. *)
Definition class_handlers : list (string * handler) :=
  [("on_BT", on_BT); ("on_ET", on_ET); ("on_Tf", on_Tf); ("on_Tj", on_Tj);
   ("on_apostrophe", on_apostrophe); ("on_TJ", on_TJ);
   ("on_quotation", on_quotation); ("on_Tstar", on_Tstar)]%string.

Fixpoint assoc {A : Type} (key : string) (l : list (string * A)) : option A :=
  match l with
  | [] => None
  | (k, a) :: rest => if bool_decide (k = key) then Some a else assoc key rest
  end.

(** One call on the viewer during a run: [self.<attr>(op)] for a handler of
    the class, [after_handler] or [on_inline_image] on an object, or a method
    defined outside the mixin, which may assign to the graphics state and to
    the canvas. *)
Inductive call : Type :=
| call_method (attr : string) (op : Operator)
| call_after_handler (obj : pyobj)
| call_on_inline_image (obj : pyobj)
| call_outside (on_gss : GraphicsState -> GraphicsState) (on_canvas : Canvas -> Canvas).

Definition do_call (c : call) : M unit :=
  match c with
  | call_method attr op =>
      match assoc attr class_handlers with
      | Some h => _ ← h op; mret tt
      | None => M_raise AttributeError
      end
  | call_after_handler obj => after_handler obj
  | call_on_inline_image obj => on_inline_image obj
  | call_outside on_gss on_canvas => _ ← set_gss_state on_gss; set_canvas on_canvas
  end.

(** The objects a run passes to [after_handler] and to [on_inline_image]. *)
Definition after_objects (calls : list call) : list pyobj :=
  omap (fun c => match c with call_after_handler obj => Some obj | _ => None end)
       calls.

Definition inline_image_objects (calls : list call) : list pyobj :=
  omap (fun c => match c with call_on_inline_image obj => Some obj | _ => None end)
       calls.

Definition is_outside (c : call) : bool :=
  match c with
  | call_outside _ _ => true
  | _ => false
  end.

(** [on_BT] is called on operators named BT only. *)
Definition opens_with_BT (c : call) : Prop :=
  match c with
  | call_method attr op => attr = "on_BT"%string -> name op = "BT"%string
  | _ => True
  end.

(** The graphics state after a call that returns: [on_Tf] stores its
    operands, a method outside the mixin does what it does, and no other call
    assigns to it. *)
Definition gss_after (c : call) (gss : GraphicsState) : GraphicsState :=
  match c with
  | call_method attr op =>
      if (attr =? "on_Tf")%string then set_Font (args op) gss else gss
  | call_outside on_gss _ => on_gss gss
  | _ => gss
  end.

Definition is_show_string (attr : string) : bool :=
  ((attr =? "on_Tj") || (attr =? "on_apostrophe"))%string.

Definition is_show_array (attr : string) : bool :=
  ((attr =? "on_TJ") || (attr =? "on_quotation"))%string.

(** The font names under which a call that returns decodes strings, one per
    string: the current font once for the handler of [Tj] and of the
    apostrophe, and once per string or hex string of the array for the
    handler of [TJ] and of the quotation mark. *)
Definition fonts_decoded_by (c : call) (font : option string)
    : list (option string) :=
  match c with
  | call_method attr op =>
      if is_show_string attr then [font]
      else if is_show_array attr then
        match args op with
        | PArray elms :: _ => replicate (length (List.filter is_text elms)) font
        | _ => []
        end
      else []
  | _ => []
  end.

(** The font name current at a show-text call, whether it decodes or not. *)
Definition fonts_shown_by (c : call) (font : option string)
    : list (option string) :=
  match c with
  | call_method attr _ =>
      if is_show_string attr || is_show_array attr then [font] else []
  | _ => []
  end.

(** The same over the calls of a run that ends normally, from the graphics
    state it starts with. *)
Fixpoint fonts_along (by_call : call -> option string -> list (option string))
    (gss : GraphicsState) (calls : list call) : list (option string) :=
  match calls with
  | [] => []
  | c :: rest =>
      by_call c (font_name gss) ++ fonts_along by_call (gss_after c gss) rest
  end.

Definition decoding_fonts : GraphicsState -> list call -> list (option string) :=
  fonts_along fonts_decoded_by.

Definition show_text_fonts : GraphicsState -> list call -> list (option string) :=
  fonts_along fonts_shown_by.

(** The resources have a font of that name. *)
Definition has_font (resources : gmap string Font) (name : option string) : Prop :=
  is_Some (name ≫= fun n => resources !! n).

(** The calls of a run, in order; the first exception ends the run. *)
Fixpoint run (calls : list call) : M unit :=
  match calls with
  | [] => mret tt
  | c :: rest => _ ← do_call c; run rest
  end.

End Mixin.

(** Collaborators for the examples: font descriptions carry nothing, the
    graphics state is the font name, [Tf] takes it from its first operand,
    and the decoders and [pdf_escape_string] return the text as it is. *)
Definition plain_decode (d : StringDecoder unit) (s : pyobj) : result string :=
  match s with
  | PString t | PHexString t | PStr t | PName t => Ok t
  | _ => Raise TypeError
  end.

Definition plain_set_Font (args : list pyobj) (gss : option string) : option string :=
  match args with
  | PName n :: _ => Some n
  | _ => gss
  end.

Definition plain : Collaborators := {|
  Font := unit;
  GraphicsState := option string;
  font_name := fun gss => gss;
  set_Font := plain_set_Font;
  Decoder_decode_string := plain_decode;
  Decoder_decode_hexstring := plain_decode;
  pdf_escape_string := fun s => s;
  b85encode := fun _ => EmptyString
|}.

End Viewer.

Example bytestobits_doctest :
  Lzw.bytestobits [1; 48] = [0;0;0;0;0;0;0;1; 0;0;1;1;0;0;0;0].
Proof. reflexivity. Qed.

Example intfrombits_doctest : Lzw.intfrombits [1;0;0;1;1;0;0;0;0] = 304.
Proof. reflexivity. Qed.

Example unpack_doctest : Lzw.unpack 258 [0; 192; 64] = [1; 257].
Proof. vm_compute. reflexivity. Qed.


(** ** Facts about the loops *)

Import Lzw.

Lemma while_incr_exit (cond : Z -> bool) (fuel : nat) (w : Z) (k : nat) :
  (k < fuel)%nat -> cond (w + Z.of_nat k) = false ->
  cond (while_incr cond fuel w) = false.
Proof.
  revert w k. induction fuel as [|fuel IH]; intros w k Hk Hc; [lia|].
  simpl. destruct (cond w) eqn:Hw; [|exact Hw].
  destruct k as [|k].
  - rewrite Z.add_0_r in Hc. congruence.
  - apply (IH (w + 1) k); [lia|].
    rewrite <- Hc. f_equal. lia.
Qed.

Lemma while_incr_stable (cond : Z -> bool) (n m : nat) (w : Z) (k : nat) :
  (k < n)%nat -> (k < m)%nat -> cond (w + Z.of_nat k) = false ->
  while_incr cond n w = while_incr cond m w.
Proof.
  revert m w k. induction n as [|n IH]; intros m w k Hn Hm Hc; [lia|].
  destruct m as [|m]; [lia|].
  simpl. destruct (cond w) eqn:Hw; [|reflexivity].
  destruct k as [|k].
  - rewrite Z.add_0_r in Hc. congruence.
  - apply (IH m (w + 1) k); [lia|lia|].
    rewrite <- Hc. f_equal. lia.
Qed.

Lemma pow2_gt_self (b : Z) : 0 <= b -> b < 2 ^ b.
Proof. intros Hb. apply Z.pow_gt_lin_r; lia. Qed.

(** The fuel of [grow_width] is enough for every pair of arguments: the
    definition satisfies the equation of the [while] loop it stands for. *)
Lemma grow_width_unfold (codesize pointwidth : Z) :
  grow_width codesize pointwidth =
  if codesize >=? 2 ^ pointwidth then grow_width codesize (pointwidth + 1)
  else pointwidth.
Proof.
  unfold grow_width at 1. simpl while_incr.
  destruct (codesize >=? 2 ^ pointwidth) eqn:Hc; [|reflexivity].
  assert (Hge : 2 ^ pointwidth <= codesize) by lia.
  assert (H0 : 0 <= 2 ^ pointwidth) by (apply Z.pow_nonneg; lia).
  unfold grow_width.
  set (F := (Z.to_nat codesize + Z.to_nat (- pointwidth))%nat).
  assert (HF : (1 <= F)%nat).
  { subst F. destruct (Z_lt_le_dec pointwidth 0) as [Hn|Hp]; [lia|].
    assert (0 < 2 ^ pointwidth) by (apply Z.pow_pos_nonneg; lia). lia. }
  apply (while_incr_stable _ _ _ _ (F - 1)); [lia|subst F; lia|].
  assert (He : 0 <= pointwidth + 1 + Z.of_nat (F - 1) /\
               codesize <= pointwidth + 1 + Z.of_nat (F - 1)) by (subst F; lia).
  pose proof (pow2_gt_self _ (proj1 He)).
  rewrite Z.geb_leb. apply Z.leb_gt. lia.
Qed.

Lemma grow_width_exit (codesize pointwidth : Z) :
  codesize < 2 ^ grow_width codesize pointwidth.
Proof.
  unfold grow_width.
  set (F := (Z.to_nat codesize + Z.to_nat (- pointwidth))%nat).
  assert (H : (codesize >=? 2 ^ while_incr (fun w => codesize >=? 2 ^ w) (S F) pointwidth) = false).
  { apply (while_incr_exit (fun w => codesize >=? 2 ^ w) _ _ F); [lia|].
    rewrite Z.geb_leb. apply Z.leb_gt.
    destruct (Z_lt_le_dec codesize 0) as [Hn|Hp].
    - assert (0 <= 2 ^ (pointwidth + Z.of_nat F)) by (apply Z.pow_nonneg; lia). lia.
    - assert (He : 0 <= pointwidth + Z.of_nat F /\ codesize <= pointwidth + Z.of_nat F)
        by (subst F; lia).
      pose proof (pow2_gt_self _ (proj1 He)). lia. }
  rewrite Z.geb_leb in H. apply Z.leb_gt in H. exact H.
Qed.

Lemma minwidth_of_exit (initial_code_size : Z) :
  initial_code_size <= Z.shiftl 1 (minwidth_of initial_code_size).
Proof.
  unfold minwidth_of.
  set (F := Z.to_nat initial_code_size).
  assert (H : (Z.shiftl 1 (while_incr (fun w => Z.shiftl 1 w <? initial_code_size) (S F) 8)
               <? initial_code_size) = false).
  { apply (while_incr_exit (fun w => Z.shiftl 1 w <? initial_code_size) _ _ F); [lia|].
    rewrite Z.shiftl_1_l. apply Z.ltb_ge.
    destruct (Z_lt_le_dec initial_code_size 0) as [Hn|Hp].
    - assert (0 <= 2 ^ (8 + Z.of_nat F)) by (apply Z.pow_nonneg; lia). lia.
    - assert (He : 0 <= 8 + Z.of_nat F /\ initial_code_size <= 8 + Z.of_nat F)
        by (subst F; lia).
      pose proof (pow2_gt_self _ (proj1 He)). lia. }
  apply Z.ltb_ge in H. exact H.
Qed.

Lemma minwidth_of_258 : minwidth_of 258 = 9.
Proof. reflexivity. Qed.

(** ** The bit unpacker: code size counter and code width *)

Lemma width_fits_initial : width_fits 258 9.
Proof. unfold width_fits. simpl. lia. Qed.

Lemma grow_width_step (codesize pointwidth : Z) :
  width_fits codesize pointwidth ->
  width_fits (codesize + 1) (grow_width (codesize + 1) pointwidth).
Proof.
  intros (H9 & Hl & Hu).
  assert (Hs : 2 ^ (pointwidth + 1) = 2 * 2 ^ pointwidth)
    by (rewrite Z.pow_add_r by lia; change (2 ^ 1) with 2; lia).
  rewrite grow_width_unfold.
  destruct (codesize + 1 >=? 2 ^ pointwidth) eqn:Hc.
  - rewrite grow_width_unfold.
    replace (codesize + 1 >=? 2 ^ (pointwidth + 1)) with false
      by (symmetry; rewrite Z.geb_leb; apply Z.leb_gt; lia).
    unfold width_fits.
    replace (pointwidth + 1 - 1) with pointwidth by lia. lia.
  - rewrite Z.geb_leb in Hc. apply Z.leb_gt in Hc.
    unfold width_fits. lia.
Qed.

Lemma width_fits_le_12 (codesize pointwidth : Z) :
  width_fits codesize pointwidth -> (pointwidth <= 12 <-> codesize < 4096).
Proof.
  intros (H9 & Hl & Hu). split; intros H.
  - assert (2 ^ pointwidth <= 2 ^ 12) by (apply Z.pow_le_mono_r; lia).
    change (2 ^ 12) with 4096 in *. lia.
  - destruct (Z_le_gt_dec pointwidth 12) as [|Hgt]; [assumption|exfalso].
    assert (2 ^ 12 <= 2 ^ (pointwidth - 1)) by (apply Z.pow_le_mono_r; lia).
    change (2 ^ 12) with 4096 in *. lia.
Qed.

Lemma unpack_step_inv (st st' : unpack_state) (nextbit : Z) (out : option emission) :
  width_fits (codesize st) (pointwidth st) ->
  unpack_step 258 9 st nextbit = (st', out) ->
  width_fits (codesize st') (pointwidth st') /\
  match out with
  | None => codesize st' = codesize st
  | Some e =>
      em_width e = pointwidth st /\ em_codesize e = codesize st /\
      codesize st' = if is_control (em_codepoint e) then 258 else codesize st + 1
  end.
Proof.
  intros Hfit. unfold unpack_step.
  destruct (ignore st >? 0).
  { intros [= <- <-]. simpl. auto. }
  destruct (Z.of_nat (length (bits st ++ [nextbit])) =? pointwidth st).
  2:{ intros [= <- <-]. simpl. auto. }
  set (codepoint := intfrombits (bits st ++ [nextbit])).
  fold (is_control codepoint).
  destruct (is_control codepoint) eqn:Hctl.
  - intros [= <- <-]. simpl. rewrite Hctl.
    split; [exact width_fits_initial|auto].
  - intros [= <- <-]. simpl. rewrite Hctl.
    split; [apply grow_width_step; assumption|auto].
Qed.

Lemma unpack_loop_inv (bitsource : list Z) :
  forall (st : unpack_state) (n : Z),
    width_fits (codesize st) (pointwidth st) ->
    codesize st = 258 + n ->
    forall (l1 l2 : list emission) (e : emission),
      unpack_loop 258 9 st bitsource = l1 ++ e :: l2 ->
      em_codesize e = 258 + since_reset_from n (map em_codepoint l1) /\
      width_fits (em_codesize e) (em_width e).
Proof.
  induction bitsource as [|nextbit rest IH]; intros st n Hfit Hn l1 l2 e Heq.
  - destruct l1; discriminate Heq.
  - simpl in Heq.
    destruct (unpack_step 258 9 st nextbit) as [st' out] eqn:Hstep.
    destruct (unpack_step_inv _ _ _ _ Hfit Hstep) as [Hfit' Hout].
    destruct out as [e0|].
    + destruct Hout as (Hw & Hc & Hcs).
      destruct l1 as [|e1 l1].
      * simpl in Heq. injection Heq as -> _. simpl.
        rewrite Hw, Hc. split; [exact Hn|exact Hfit].
      * simpl in Heq. injection Heq as <- Heq. simpl.
        destruct (is_control (em_codepoint e0)).
        -- eapply (IH st' 0 Hfit'); [lia|exact Heq].
        -- eapply (IH st' (n + 1) Hfit'); [lia|exact Heq].
    + eapply (IH st' n Hfit'); [lia|exact Heq].
Qed.

Lemma since_reset_from_nonneg (codepoints : list Z) :
  forall n, 0 <= n -> 0 <= since_reset_from n codepoints.
Proof.
  induction codepoints as [|cp rest IH]; intros n Hn; simpl; [exact Hn|].
  destruct (is_control cp); apply IH; lia.
Qed.

(** Every emission of the unpacker: the counter is the initial size plus the
    number of code points since the last reset, and the width is the bit
    length of the counter. *)
Lemma unpack_emission_counter (bytesource : list Z)
    (l1 l2 : list emission) (e : emission) :
  unpack_emissions 258 bytesource = l1 ++ e :: l2 ->
  em_codesize e = 258 + since_reset (map em_codepoint l1) /\
  width_fits (em_codesize e) (em_width e).
Proof.
  unfold unpack_emissions. rewrite minwidth_of_258. intros Heq.
  apply (unpack_loop_inv _ (unpack_init 258) 0) in Heq.
  - exact Heq.
  - exact width_fits_initial.
  - reflexivity.
Qed.

Lemma unpack_width_13_iff (bytesource : list Z)
    (l1 l2 : list emission) (e : emission) :
  unpack_emissions 258 bytesource = l1 ++ e :: l2 ->
  (em_width e <= 12 <-> since_reset (map em_codepoint l1) < 3838).
Proof.
  intros Heq. destruct (unpack_emission_counter _ _ _ _ Heq) as [Hc Hfit].
  rewrite (width_fits_le_12 _ _ Hfit). lia.
Qed.

(** ** The code book of the decoder *)

Lemma clear_codes_size : code_size _clear_codes = 258.
Proof. vm_compute. reflexivity. Qed.

Lemma clear_codes_keys :
  map_Forall (fun k v => 0 <= k < 258 /\ is_PyNone v = false)
    (_codepoints _clear_codes).
Proof. apply (bool_decide_unpack _). vm_compute. exact I. Qed.

Lemma clear_codes_full :
  Forall (fun k => is_Some (_codepoints _clear_codes !! k)) (seqZ 0 258).
Proof. apply (bool_decide_unpack _). vm_compute. exact I. Qed.

Lemma clear_codes_ok : codebook_ok _clear_codes.
Proof.
  split; [|split].
  - intros k. rewrite clear_codes_size. split.
    + intros [v Hv]. apply (clear_codes_keys k v Hv).
    + intros Hk. pose proof clear_codes_full as Hall.
      rewrite Forall_forall in Hall. apply Hall.
      apply elem_of_seqZ. lia.
  - intros k v Hv. apply (clear_codes_keys k v Hv).
  - intros _. exact clear_codes_size.
Qed.

Lemma py_add_not_None (a b v : pyval) :
  py_add a b = Ok v -> is_PyNone v = false.
Proof. destruct a, b; simpl; intros [= <-]; reflexivity. Qed.

Lemma codebook_insert_next (d : Decoder) (v p : pyval) :
  codebook_ok d -> is_PyNone v = false -> is_PyNone p = false ->
  let d' := mk_Decoder (<[code_size d := v]> (_codepoints d)) p in
  codebook_ok d' /\ code_size d' = code_size d + 1.
Proof.
  intros (Hkeys & Hvals & Hpre) Hv Hp d'.
  assert (Hfresh : _codepoints d !! code_size d = None).
  { destruct (_codepoints d !! code_size d) eqn:E; [|reflexivity].
    assert (is_Some (_codepoints d !! code_size d)) as Hs by eauto.
    apply Hkeys in Hs. lia. }
  assert (Hsize : code_size d' = code_size d + 1).
  { unfold code_size, d'. simpl.
    rewrite (map_size_insert_None _ _ _ Hfresh). lia. }
  split; [|exact Hsize]. split; [|split].
  - intros k. rewrite Hsize. subst d'. simpl.
    rewrite lookup_insert_is_Some, Hkeys.
    assert (0 <= code_size d) by (unfold code_size; lia). lia.
  - intros k w. subst d'. simpl. rewrite lookup_insert.
    case_decide; [intros [= <-]; exact Hv|apply Hvals].
  - subst d'. simpl. rewrite Hp. discriminate.
Qed.

Lemma decode_codepoint_inv (d d' : Decoder) (cp : Z) (ret : pyval) :
  codebook_ok d ->
  _decode_codepoint d cp = Ok (ret, d') ->
  codebook_ok d' /\
  is_PyNone (_prefix d') = (cp =? CLEAR_CODE) /\
  code_size d' =
    if cp =? CLEAR_CODE then 258
    else if is_PyNone (_prefix d) then code_size d else code_size d + 1.
Proof.
  intros Hok. unfold _decode_codepoint.
  destruct (cp =? CLEAR_CODE) eqn:Hclear.
  { intros [= <- <-]. split; [exact clear_codes_ok|]. split; [reflexivity|].
    exact clear_codes_size. }
  destruct (cp =? END_OF_INFO_CODE); [discriminate|].
  destruct (_codepoints d !! cp) as [ret'|] eqn:Hlook.
  - assert (Hret : is_PyNone ret' = false) by (apply (proj1 (proj2 Hok)) in Hlook; exact Hlook).
    destruct (_prefix d) as [|p|n] eqn:Hpre.
    + intros [= <- <-]. simpl. split; [|auto].
      destruct Hok as (Hkeys & Hvals & _).
      split; [exact Hkeys|]. split; [exact Hvals|].
      simpl. rewrite Hret. discriminate.
    + destruct ret' as [|b|m]; simpl; try discriminate.
      intros [= <- <-].
      destruct (codebook_insert_next d (PyBytes (p ++ take 1 b)) (PyBytes b) Hok)
        as [Hok' Hsz]; auto.
    + destruct ret' as [|b|m]; simpl; discriminate.
  - destruct (_prefix d) as [|p|n] eqn:Hpre; simpl; try discriminate.
    intros [= <- <-].
    destruct (codebook_insert_next d (PyBytes (p ++ [])) (PyBytes (p ++ [])) Hok)
      as [Hok' Hsz]; auto.
Qed.

(** After the loop of [Decoder.decode] the prefix is [None] exactly when the
    last code point was CLEAR (or, over no code point, when it was so
    before). *)
Lemma decode_loop_inv (codepoints : list Z) :
  forall (d d' : Decoder) (decoded out : pyval),
    codebook_ok d ->
    decode_loop d decoded codepoints = Ok (out, d') ->
    codebook_ok d' /\
    is_PyNone (_prefix d') =
      match last codepoints with
      | None => is_PyNone (_prefix d)
      | Some cp => cp =? CLEAR_CODE
      end.
Proof.
  induction codepoints as [|cp rest IH]; intros d d' decoded out Hok.
  - simpl. intros [= _ <-]. auto.
  - simpl.
    destruct (_decode_codepoint d cp) as [[ret d1]|] eqn:Hstep; [|discriminate].
    simpl. destruct (py_add decoded ret) as [decoded'|]; [|discriminate]. simpl.
    intros Hloop.
    destruct (decode_codepoint_inv _ _ _ _ Hok Hstep) as (Hok1 & Hpre1 & _).
    destruct (IH _ _ _ _ Hok1 Hloop) as [Hok' Hpre'].
    split; [exact Hok'|].
    rewrite Hpre', last_cons. destruct (last rest); [reflexivity|exact Hpre1].
Qed.

Lemma decode_loop_end_of_info (codepoints : list Z) :
  forall (d : Decoder) (decoded : pyval),
    In END_OF_INFO_CODE codepoints ->
    is_ok (decode_loop d decoded codepoints) = false.
Proof.
  induction codepoints as [|cp rest IH]; intros d decoded Hin; [destruct Hin|].
  simpl. destruct (Z.eq_dec cp END_OF_INFO_CODE) as [->|Hne].
  - reflexivity.
  - destruct Hin as [Heq|Hin]; [congruence|].
    destruct (_decode_codepoint d cp) as [[ret d1]|]; [|reflexivity].
    simpl. destruct (py_add decoded ret); [|reflexivity].
    simpl. apply IH. exact Hin.
Qed.

(** Whenever the unpacker yields END-OF-INFO, [decompress] raises. *)
Lemma decompress_end_of_info (compressed_bytes : list Z) :
  In END_OF_INFO_CODE (unpack 258 compressed_bytes) ->
  is_ok (decompress compressed_bytes) = false.
Proof.
  intros Hin. unfold decompress, decodefrombytes, Decoder_decode.
  change (_unpacker_initial_code_size ByteDecoder_new) with (code_size _clear_codes).
  rewrite clear_codes_size.
  pose proof (decode_loop_end_of_info _ (_decoder ByteDecoder_new) (PyBytes []) Hin) as H.
  destruct (decode_loop _ _ _) as [[? ?]|]; [discriminate H|reflexivity].
Qed.

(** ** The properties of the LZW filter *)

(** C1. In [ByteDecoder.decodefrombytes] nothing stands between the unpacker
    and the decoder: on the bytes 00 C0 40 the unpacker yields [1, 257], the
    END-OF-INFO code point reaches [Decoder._decode_codepoint], which raises
    [ValueError], where the code point 1 alone decodes to the byte 01; the
    filter entry point then returns empty bytes. *)
Theorem decodefrombytes_passes_end_of_info :
  unpack 258 [0x00; 0xC0; 0x40] = [1; END_OF_INFO_CODE] /\
  decompress [0x00; 0xC0; 0x40] = Raise ValueError /\
  fst <$> Decoder_decode Decoder_new [1] = Ok (PyBytes [1]) /\
  forall (V : Type) (_remove_predictors : pyval -> option V -> option V -> result pyval)
         (params : gmap string V),
    decode V _remove_predictors [0x00; 0xC0; 0x40] params = Ok (PyBytes []).
Proof.
  split; [vm_compute; reflexivity|].
  assert (H : decompress [0x00; 0xC0; 0x40] = Raise ValueError)
    by (vm_compute; reflexivity).
  split; [exact H|]. split; [vm_compute; reflexivity|].
  intros V rp params. unfold decode. rewrite H. reflexivity.
Qed.

(** C2. [decode] catches [ValueError] only: on the bytes FF FF the first code
    point is 511, which is not in the code book while the prefix is still
    [None], [None + b''] raises [TypeError], and the exception leaves
    [decode] whatever the parameters are. *)
Theorem decode_lets_TypeError_through :
  unpack 258 [0xFF; 0xFF] = [511] /\
  forall (V : Type) (_remove_predictors : pyval -> option V -> option V -> result pyval)
         (params : gmap string V),
    decode V _remove_predictors [0xFF; 0xFF] params = Raise TypeError.
Proof.
  split; [vm_compute; reflexivity|].
  intros V rp params. unfold decode.
  replace (decompress [0xFF; 0xFF]) with (@Raise pyval TypeError)
    by (vm_compute; reflexivity).
  reflexivity.
Qed.

(** C3. Decompressing 39 98 4D A7 03 61 94 40 74 32 9E 0E 90 00 yields the
    bytes of the text "sample text", and these are the bytes that [decode]
    hands to the predictor step. *)
Theorem decompress_sample_text :
  let data := [0x39; 0x98; 0x4D; 0xA7; 0x03; 0x61; 0x94; 0x40; 0x74; 0x32;
               0x9E; 0x0E; 0x90; 0x00] in
  let text := PyBytes (bytes_of_text "sample text") in
  decompress data = Ok text /\
  forall (V : Type) (_remove_predictors : pyval -> option V -> option V -> result pyval)
         (params : gmap string V),
    decode V _remove_predictors data params
    = match _remove_predictors text (params !! "Predictor"%string)
              (params !! "Columns"%string) with
      | Ok data' => Ok data'
      | Raise ValueError => Ok (PyBytes [])
      | Raise e => Raise e
      end.
Proof.
  intros data text.
  assert (H : decompress data = Ok text) by (vm_compute; reflexivity).
  split; [exact H|].
  intros V rp params. unfold decode. rewrite H. reflexivity.
Qed.

(** C4. A fresh decoder turns the code points
    103 97 98 98 97 32 258 260 262 121 111 263 259 261 256 into the bytes of
    the text "gabba gabba yo gabba". *)
Theorem decode_gabba :
  fst <$> Decoder_decode Decoder_new
            [103; 97; 98; 98; 97; 32; 258; 260; 262; 121; 111; 263; 259; 261; 256]
  = Ok (PyBytes (bytes_of_text "gabba gabba yo gabba")).
Proof. vm_compute. reflexivity. Qed.

(** C5, as the code has it. The unpacker never looks at [DEFAULT_MAX_BITS]:
    the width in effect when a code point is yielded is between 9 and 12 bits
    as long as fewer than 3838 code points were yielded since the last
    control code (or since the start). *)
Theorem unpack_width_at_most_12 (bytesource : list Z)
    (l1 l2 : list emission) (e : emission) :
  unpack_emissions 258 bytesource = l1 ++ e :: l2 ->
  since_reset (map em_codepoint l1) < 3838 ->
  9 <= em_width e <= 12.
Proof.
  intros Heq Hrun.
  destruct (unpack_emission_counter _ _ _ _ Heq) as [_ Hfit].
  split; [exact (proj1 Hfit)|].
  apply (unpack_width_13_iff _ _ _ _ Heq). exact Hrun.
Qed.

Lemma unpack_width_at_most_12_witness :
  unpack_emissions 258 [0x00; 0xC0; 0x40]
  = [mk_emission 1 9 258] ++ mk_emission 257 9 259 :: [] /\
  since_reset (map em_codepoint [mk_emission 1 9 258]) < 3838 /\
  9 <= em_width (mk_emission 257 9 259) <= 12.
Proof.
  assert (H1 : unpack_emissions 258 [0x00; 0xC0; 0x40]
               = [mk_emission 1 9 258] ++ mk_emission 257 9 259 :: [])
    by (vm_compute; reflexivity).
  assert (H2 : since_reset (map em_codepoint [mk_emission 1 9 258]) < 3838)
    by (vm_compute; reflexivity).
  split; [exact H1|]. split; [exact H2|].
  exact (unpack_width_at_most_12 _ _ _ _ H1 H2).
Defined.

(** C5, as stated, fails: over 5408 zero bytes no control code is ever
    yielded and the last code point is read from a group of 13 bits. *)
Lemma unpack_width_reaches_13 :
  let emissions := unpack_emissions 258 (repeat 0 (Z.to_nat 5408)) in
  Forall (fun e => is_control (em_codepoint e) = false) emissions /\
  Exists (fun e => em_width e = 13 /\ em_codesize e = 4096) emissions.
Proof.
  split.
  - apply (bool_decide_unpack _). vm_compute. exact I.
  - apply (bool_decide_unpack _). vm_compute. exact I.
Qed.

(** C6. For a decoder that has decoded [codepoints] since its construction,
    decoding one more code point that is not a control code leaves the code
    book one entry larger, except right after a reset, where the code book
    keeps its initial size 258. *)
Theorem decode_codepoint_code_size (codepoints : list Z) (cp : Z)
    (decoded ret : pyval) (d d' : Decoder) :
  Decoder_decode Decoder_new codepoints = Ok (decoded, d) ->
  is_control cp = false ->
  _decode_codepoint d cp = Ok (ret, d') ->
  code_size d' = if after_reset codepoints then 258 else code_size d + 1.
Proof.
  intros Hrun Hctl Hstep.
  destruct (decode_loop_inv _ _ _ _ _ clear_codes_ok Hrun) as [Hok Hpre].
  destruct (decode_codepoint_inv _ _ _ _ Hok Hstep) as (_ & _ & Hsize).
  unfold is_control in Hctl. apply orb_false_elim in Hctl as [Hclear _].
  rewrite Hclear in Hsize. rewrite Hsize.
  change (is_PyNone (_prefix _clear_codes)) with true in Hpre.
  fold (after_reset codepoints) in Hpre. rewrite Hpre.
  destruct (after_reset codepoints) eqn:Hafter; [|reflexivity].
  apply (proj2 (proj2 Hok)). rewrite Hpre. reflexivity.
Qed.

Lemma decode_codepoint_code_size_witness :
  exists (decoded ret : pyval) (d d' : Decoder),
    Decoder_decode Decoder_new [103] = Ok (decoded, d) /\
    _decode_codepoint d 97 = Ok (ret, d') /\
    code_size d' = code_size d + 1.
Proof.
  do 4 eexists.
  split; [vm_compute; reflexivity|].
  split; [vm_compute; reflexivity|].
  eapply (decode_codepoint_code_size [103] 97).
  - vm_compute. reflexivity.
  - reflexivity.
  - vm_compute. reflexivity.
Defined.

(** ** The serializer *)

Import Viewer.

Section SerializerFacts.

Context {collab : Collaborators}.

Lemma each_array (l : list pyobj) :
  (fix each (l : list pyobj) : result (list string) :=
     match l with
     | [] => Ok []
     | elm :: rest =>
         s ← object_to_string elm;
         ss ← each rest;
         Ok (s :: ss)
     end) l = for_each object_to_string l.
Proof.
  induction l as [|elm rest IH]; [reflexivity|].
  simpl for_each. rewrite <- IH.
  destruct (object_to_string elm); reflexivity.
Qed.

Lemma each_entry (l : list (string * pyobj)) :
  (fix each (l : list (string * pyobj)) : result (list string) :=
     match l with
     | [] => Ok []
     | (k, v) :: rest =>
         s ← object_to_string v;
         ss ← each rest;
         Ok (format_entry k s :: ss)
     end) l
  = for_each (fun kv => format_entry kv.1 <$> object_to_string kv.2) l.
Proof.
  induction l as [|[k v] rest IH]; [reflexivity|].
  simpl for_each. rewrite <- IH.
  destruct (object_to_string v); reflexivity.
Qed.


End SerializerFacts.

Example object_to_string_operator :
  object_to_string (collab := plain)
    (POperator "TJ"
       [PArray [PStr "(Hi)"; PInteger (-120); PName "F1"; PBoolean true; PNone;
                PDictionary [("K", PDecimal "1.5"); ("A", PArray [])]]])%string
  = Ok (newline +:+ "[(Hi) -120 /F1 true null <</K 1.5 /A []>>] TJ")%string.
Proof. reflexivity. Qed.

Example object_to_string_nested_unknown :
  object_to_string (collab := plain)
    (POperator "Tj" [PArray [PInteger 1; POther "3.5"; PInteger 2]])%string
  = Raise ValueError.
Proof. reflexivity. Qed.

(** ** The text operators *)

Ltac unfold_M :=
  unfold mbind, mret, M_mbind, M_mret, M_bind, M_ret, M_raise, M_lift,
    strings_append, set_canvas, set_gss_state, set_bracket_commands_stack.

Section MixinFacts.

Context {collab : Collaborators}.

Lemma mode_inside_text (self : Viewer) :
  mode self = Some "BT"%string <-> inside_text self.
Proof.
  unfold mode, inside_text. split.
  - destruct (last (bracket_commands_stack self)) as [top|] eqn:Hlast; [|discriminate].
    simpl. intros [= Hname]. apply last_Some in Hlast as [below Hstack].
    exists below, top. auto.
  - intros (below & top & -> & Hname). rewrite last_snoc. simpl. congruence.
Qed.

Lemma empty_stack_outside_text (self : Viewer) :
  bracket_commands_stack self = [] -> ~ inside_text self.
Proof.
  intros Hnil (below & top & Hstack & _). rewrite Hnil in Hstack.
  destruct below; discriminate.
Qed.

Lemma run_app (before after : list call) (v0 : Viewer) :
  run (before ++ after) v0 =
  match run before v0 with
  | (Ok _, v1) => run after v1
  | (Raise e, v1) => (Raise e, v1)
  end.
Proof.
  revert v0. induction before as [|c rest IH]; intros v0; [reflexivity|].
  simpl. unfold_M. destruct (do_call c v0) as [[[]|e] v1]; [apply IH|reflexivity].
Qed.

Lemma on_BT_inside (self : Viewer) (op : Operator) :
  inside_text self -> on_BT op self = (Raise ValueError, self).
Proof.
  intros Hin. apply mode_inside_text in Hin. unfold on_BT.
  rewrite bool_decide_eq_true_2 by exact Hin. reflexivity.
Qed.

Lemma on_BT_outside (self : Viewer) (op : Operator) :
  ~ inside_text self ->
  on_BT op self = (Ok op, with_stack (bracket_commands_stack self ++ [op]) self).
Proof.
  intros Hout. rewrite <- mode_inside_text in Hout. unfold on_BT.
  rewrite bool_decide_eq_false_2 by exact Hout. reflexivity.
Qed.

Lemma on_ET_outside (self : Viewer) (op : Operator) :
  ~ inside_text self -> on_ET op self = (Raise ValueError, self).
Proof.
  intros Hout. rewrite <- mode_inside_text in Hout. unfold on_ET.
  rewrite bool_decide_eq_true_2 by exact Hout. reflexivity.
Qed.

Lemma on_ET_inside (self : Viewer) (op : Operator) :
  inside_text self ->
  on_ET op self = (Ok op, with_stack (removelast (bracket_commands_stack self)) self).
Proof.
  intros Hin. apply mode_inside_text in Hin. unfold on_ET.
  rewrite bool_decide_eq_false_2 by (intros Hne; exact (Hne Hin)). reflexivity.
Qed.

(** C7. [on_BT] raises when the top of the bracket stack is a BT operator and
    pushes the operator otherwise; [on_ET] raises when the stack is empty or
    its top is no BT operator and pops otherwise; a raising call leaves the
    viewer, its canvas included, as the calls before it made it, and ends the
    run there. *)
Theorem text_object_brackets (self : Viewer) (op : Operator) :
  (inside_text self ->
     on_BT op self = (Raise ValueError, self) /\
     on_ET op self
     = (Ok op, with_stack (removelast (bracket_commands_stack self)) self)) /\
  (~ inside_text self ->
     on_BT op self
     = (Ok op, with_stack (bracket_commands_stack self ++ [op]) self) /\
     on_ET op self = (Raise ValueError, self)) /\
  (forall (v0 : Viewer) (before after : list call),
     run before v0 = (Ok tt, self) ->
     (inside_text self ->
        run (before ++ call_method "on_BT" op :: after) v0
        = (Raise ValueError, self)) /\
     (~ inside_text self ->
        run (before ++ call_method "on_ET" op :: after) v0
        = (Raise ValueError, self))).
Proof.
  split; [|split].
  - intros Hin. split; [apply on_BT_inside|apply on_ET_inside]; exact Hin.
  - intros Hout. split; [apply on_BT_outside|apply on_ET_outside]; exact Hout.
  - intros v0 before after Hrun. split; intros Hside.
    + rewrite run_app, Hrun. simpl. unfold_M.
      rewrite (on_BT_inside _ _ Hside). reflexivity.
    + rewrite run_app, Hrun. simpl. unfold_M.
      rewrite (on_ET_outside _ _ Hside). reflexivity.
Qed.

(** *** The quote operators *)

Lemma decoder_shows_text_only (self : Viewer) :
  shows_text_only self (decoder self).2.
Proof.
  unfold decoder, shows_text_only.
  destruct (_decoders self !! font_name (gss_state self)); [simpl; auto 6|].
  destruct (Font_entry self (font_name (gss_state self))); simpl; auto 6.
Qed.

Lemma shows_text_only_trans (v1 v2 v3 : Viewer) :
  shows_text_only v1 v2 -> shows_text_only v2 v3 -> shows_text_only v1 v3.
Proof.
  unfold shows_text_only. intros (?&?&?&?&?) (?&?&?&?&?).
  repeat split; congruence.
Qed.

Lemma shows_text_only_refl (self : Viewer) : shows_text_only self self.
Proof. unfold shows_text_only. auto 6. Qed.

Lemma decode_string_shows_text_only (s : pyobj) (self : Viewer) :
  shows_text_only self (decode_string s self).2.
Proof.
  unfold decode_string. unfold_M.
  pose proof (decoder_shows_text_only self) as Hd.
  destruct (decoder self) as [[d|e] self1]; simpl in *; [|exact Hd].
  destruct s; simpl; exact Hd.
Qed.

Lemma shown_string_shows_text_only (elm : pyobj) (self : Viewer) :
  shows_text_only self
    ((s ← decode_string elm; _ ← strings_append s; mret (escaped s)) self).2.
Proof.
  unfold_M.
  pose proof (decode_string_shows_text_only elm self) as Hd.
  destruct (decode_string elm self) as [[s|e] self1]; simpl in *; [|exact Hd].
  exact Hd.
Qed.

Lemma on_Tj_shows_text_only (op : Operator) (self : Viewer) :
  shows_text_only self (on_Tj op self).2.
Proof.
  unfold on_Tj. destruct (args op) as [|arg0 others].
  - apply shows_text_only_refl.
  - unfold_M.
    pose proof (decode_string_shows_text_only arg0 self) as Hd.
    destruct (decode_string arg0 self) as [[s|e] self1]; simpl in *; exact Hd.
Qed.

Lemma on_TJ_loop_shows_text_only (arr : list pyobj) :
  forall self : Viewer, shows_text_only self (on_TJ_loop arr self).2.
Proof.
  induction arr as [|elm rest IH]; intros self; [apply shows_text_only_refl|].
  assert (Hstep : forall (m : M pyobj) (self1 : Viewer),
             shows_text_only self (m self).2 ->
             shows_text_only self
               ((elm' ← m; rest' ← on_TJ_loop rest; mret (elm' :: rest')) self).2).
  { intros m self1 Hm. unfold mbind, M_mbind, M_bind at 1.
    destruct (m self) as [[elm'|e] self2]; simpl in *; [|exact Hm].
    pose proof (IH self2) as Hrest. unfold M_bind, mret, M_mret, M_ret.
    destruct (on_TJ_loop rest self2) as [[rest'|e] self3]; simpl in *;
      eapply shows_text_only_trans; eauto. }
  simpl on_TJ_loop.
  destruct elm; apply (Hstep _ self);
    try apply shows_text_only_refl; apply shown_string_shows_text_only.
Qed.

Lemma on_TJ_shows_text_only (op : Operator) (self : Viewer) :
  shows_text_only self (on_TJ op self).2.
Proof.
  unfold on_TJ. destruct (args op) as [|arr others]; [apply shows_text_only_refl|].
  destruct arr as [ | ? | ? | ? | ? | ? | ? | ? | elms | [|? ?] | ? ? | ? ? | ? ]; try apply shows_text_only_refl.
  unfold_M. pose proof (on_TJ_loop_shows_text_only elms self) as Hl.
  destruct (on_TJ_loop elms self) as [[elms'|e] self1]; simpl in *; exact Hl.
Qed.

Lemma on_Tj_any_name (n : string) (op : Operator) (self : Viewer) :
  on_Tj (mk_Operator n (args op)) self = renamed n (on_Tj op self).
Proof.
  unfold on_Tj, renamed. simpl. destruct (args op) as [|arg0 others]; [reflexivity|].
  unfold_M. destruct (decode_string arg0 self) as [[s|e] self1]; reflexivity.
Qed.

Lemma on_TJ_any_name (n : string) (op : Operator) (self : Viewer) :
  on_TJ (mk_Operator n (args op)) self = renamed n (on_TJ op self).
Proof.
  unfold on_TJ, renamed. simpl.
  destruct (args op) as [|arr others] eqn:Hargs; [reflexivity|].
  destruct arr as [ | ? | ? | ? | ? | ? | ? | ? | elms | [|? ?] | ? ? | ? ? | ? ];
    try reflexivity;
    try (unfold_M; simpl; rewrite Hargs; reflexivity).
  unfold_M. destruct (on_TJ_loop elms self) as [[elms'|e] self1]; reflexivity.
Qed.

(** C10. The alias of ['] is [apostrophe] and that of ["] is [quotation];
    the class attributes [on_apostrophe] and [on_quotation] are the very
    functions [on_Tj] and [on_TJ]. Hence, on the same operands and the same
    viewer, ['] and [Tj] (and ["] and [TJ]) have the same outcome, the
    operator keeping its own name, and neither touches the graphics state,
    the bracket stack or the reconstructed text. *)
Theorem quote_operators_share_handlers :
  assoc "'"%string operators_aliases = Some "apostrophe"%string /\
  assoc (String "034"%char EmptyString) operators_aliases = Some "quotation"%string /\
  assoc "on_apostrophe"%string class_handlers = Some on_Tj /\
  assoc "on_Tj"%string class_handlers = Some on_Tj /\
  assoc "on_quotation"%string class_handlers = Some on_TJ /\
  assoc "on_TJ"%string class_handlers = Some on_TJ /\
  (forall (operands : list pyobj) (self : Viewer),
     on_apostrophe (mk_Operator "'" operands) self
     = renamed "'" (on_Tj (mk_Operator "Tj" operands) self) /\
     on_quotation (mk_Operator (String "034"%char EmptyString) operands) self
     = renamed (String "034"%char EmptyString)
         (on_TJ (mk_Operator "TJ" operands) self)) /\
  (forall (op : Operator) (self : Viewer),
     shows_text_only self (on_apostrophe op self).2 /\
     shows_text_only self (on_quotation op self).2).
Proof.
  repeat (split; [reflexivity|]).
  split.
  - intros operands self. split.
    + apply (on_Tj_any_name "'" (mk_Operator "Tj" operands)).
    + apply (on_TJ_any_name _ (mk_Operator "TJ" operands)).
  - intros op self. split; [apply on_Tj_shows_text_only|apply on_TJ_shows_text_only].
Qed.

(** *** The decoder cache *)

Section Cache.

Variable resources : gmap string Font.

Lemma preserves_ret {A : Type} (a : A) : preserves resources (mret a).
Proof. intros self Hok. exact Hok. Qed.

Lemma preserves_raise {A : Type} (e : exn) : preserves resources (@M_raise _ A e).
Proof. intros self Hok. exact Hok. Qed.

Lemma preserves_lift {A : Type} (r : result A) : preserves resources (M_lift r).
Proof. intros self Hok. exact Hok. Qed.

Lemma preserves_bind {A B : Type} (m : M A) (k : A -> M B) :
  preserves resources m -> (forall a, preserves resources (k a)) -> preserves resources (m ≫= k).
Proof.
  intros Hm Hk self Hok. unfold mbind, M_mbind, M_bind.
  specialize (Hm self Hok).
  destruct (m self) as [[a|e] self1]; simpl in *; [apply Hk|]; exact Hm.
Qed.

Lemma preserves_set_canvas (f : Canvas -> Canvas) : preserves resources (set_canvas f).
Proof. intros self Hok. exact Hok. Qed.

Lemma preserves_set_gss_state (f : GraphicsState -> GraphicsState) :
  preserves resources (set_gss_state f).
Proof. intros self Hok. exact Hok. Qed.

Lemma preserves_set_bracket_commands_stack (f : list Operator -> list Operator) :
  preserves resources (set_bracket_commands_stack f).
Proof. intros self Hok. exact Hok. Qed.

Lemma preserves_decoder : preserves resources decoder.
Proof.
  intros self (Hres & Hnodup & Hset & Hreads & Hcons & Hdef & Hsize).
  unfold decoder. set (n0 := font_name (gss_state self)).
  destruct (_decoders self !! n0) as [obj|] eqn:Hcached.
  - simpl. repeat split; simpl; try assumption; try apply Hset; try apply Hreads.
    + rewrite elem_of_app, list_elem_of_singleton.
      intros [Hin| ->]; [apply Hreads; exact Hin|eauto].
    + intros Hsome. apply elem_of_app. left. apply Hreads. exact Hsome.
  - assert (Hfresh : n0 ∉ decoder_constructions self ++ decoder_defaults self).
    { intros Hin. apply Hset in Hin. rewrite Hcached in Hin.
      destruct Hin; discriminate. }
    assert (Hreads' : forall (obj : StringDecoder Font) n,
               n ∈ decoder_reads self ++ [n0]
               <-> is_Some (<[n0 := obj]> (_decoders self) !! n)).
    { intros obj n.
      rewrite elem_of_app, list_elem_of_singleton, lookup_insert_is_Some', Hreads.
      split; intros [?|?]; auto. }
    destruct (Font_entry self n0) as [font|] eqn:Hfont; simpl.
    + assert (Hperm : (decoder_constructions self ++ [n0]) ++ decoder_defaults self
                      ≡ₚ n0 :: (decoder_constructions self ++ decoder_defaults self)).
      { rewrite <- app_assoc. simpl. symmetry. apply Permutation_middle. }
      split; [exact Hres|]. split; [|split; [|split; [|split; [|split]]]]; simpl.
      * rewrite Hperm. apply NoDup_cons. auto.
      * intros n. rewrite Hperm, elem_of_cons, lookup_insert_is_Some', Hset.
        split; intros [?|?]; auto.
      * apply Hreads'.
      * intros n. rewrite elem_of_app, list_elem_of_singleton.
        intros [Hin| ->]; [apply Hcons; exact Hin|].
        unfold Font_entry in *. simpl. rewrite Hfont. eauto.
      * exact Hdef.
      * rewrite (map_size_insert_None _ _ _ Hcached), Hsize.
        rewrite !length_app. simpl. lia.
    + split; [exact Hres|]. split; [|split; [|split; [|split; [|split]]]]; simpl.
      * rewrite app_assoc. apply NoDup_app. split; [exact Hnodup|].
        split; [|apply NoDup_singleton].
        intros n Hin Hn0. apply list_elem_of_singleton in Hn0 as ->. auto.
      * intros n. rewrite app_assoc, elem_of_app, list_elem_of_singleton,
          lookup_insert_is_Some', Hset.
        split; intros [?|?]; auto.
      * apply Hreads'.
      * exact Hcons.
      * intros n. rewrite elem_of_app, list_elem_of_singleton.
        intros [Hin| ->]; [apply Hdef; exact Hin|].
        unfold Font_entry in *. simpl. exact Hfont.
      * rewrite (map_size_insert_None _ _ _ Hcached), Hsize.
        rewrite !length_app. simpl. lia.
Qed.

Lemma preserves_decode_string (s : pyobj) : preserves resources (decode_string s).
Proof.
  unfold decode_string. apply preserves_bind; [exact preserves_decoder|].
  intros d. destruct s; apply preserves_lift.
Qed.

Lemma preserves_shown_string (elm : pyobj) :
  preserves resources (s ← decode_string elm; _ ← strings_append s; mret (escaped s)).
Proof.
  apply preserves_bind; [apply preserves_decode_string|]. intros s.
  apply preserves_bind; [apply preserves_set_canvas|]. intros _.
  apply preserves_ret.
Qed.

Lemma preserves_on_TJ_loop (arr : list pyobj) : preserves resources (on_TJ_loop arr).
Proof.
  induction arr as [|elm rest IH]; [apply preserves_ret|].
  simpl. apply preserves_bind.
  - destruct elm; try apply preserves_ret; apply preserves_shown_string.
  - intros elm'. apply preserves_bind; [exact IH|]. intros rest'.
    apply preserves_ret.
Qed.

Lemma preserves_handlers (attr : string) (h : handler) (op : Operator) :
  assoc attr class_handlers = Some h -> preserves resources (h op).
Proof.
  assert (HBT : preserves resources (on_BT op)).
  { intros self Hok. unfold on_BT. destruct (bool_decide _); exact Hok. }
  assert (HET : preserves resources (on_ET op)).
  { intros self Hok. unfold on_ET. destruct (bool_decide _); exact Hok. }
  assert (HTf : preserves resources (on_Tf op)).
  { intros self Hok. exact Hok. }
  assert (HTj : preserves resources (on_Tj op)).
  { unfold on_Tj. destruct (args op) as [|arg0 others]; [apply preserves_raise|].
    apply preserves_bind; [apply preserves_decode_string|]. intros s.
    apply preserves_bind; [apply preserves_set_canvas|]. intros _.
    apply preserves_ret. }
  assert (HTJ : preserves resources (on_TJ op)).
  { unfold on_TJ. destruct (args op) as [|arr others]; [apply preserves_raise|].
    destruct arr as [ | ? | ? | ? | ? | ? | ? | ? | elms | [|? ?] | ? ? | ? ? | ? ];
      try apply preserves_raise; try apply preserves_ret.
    apply preserves_bind; [apply preserves_on_TJ_loop|]. intros elms'.
    apply preserves_ret. }
  assert (HTstar : preserves resources (on_Tstar op)) by apply preserves_ret.
  unfold class_handlers. simpl.
  repeat (case_bool_decide; [intros [= <-]; assumption|]).
  discriminate.
Qed.

Lemma preserves_do_call (c : call) : preserves resources (do_call c).
Proof.
  destruct c as [attr op|obj|obj|on_gss on_canvas]; unfold do_call.
  - destruct (assoc attr class_handlers) as [h|] eqn:Hh; [|apply preserves_raise].
    apply preserves_bind; [exact (preserves_handlers _ _ _ Hh)|].
    intros _. apply preserves_ret.
  - unfold after_handler. apply preserves_bind; [apply preserves_lift|].
    intros s. apply preserves_set_canvas.
  - apply preserves_set_canvas.
  - apply preserves_bind; [apply preserves_set_gss_state|].
    intros _. apply preserves_set_canvas.
Qed.

Lemma preserves_run (calls : list call) : preserves resources (run calls).
Proof.
  induction calls as [|c rest IH]; [apply preserves_ret|].
  simpl. apply preserves_bind; [apply preserves_do_call|]. intros _. exact IH.
Qed.

Lemma cache_ok_new (gss : GraphicsState) (canvas : Canvas) :
  cache_ok resources (Viewer_new resources gss canvas).
Proof.
  unfold cache_ok, Viewer_new. simpl.
  split; [reflexivity|]. split; [apply NoDup_nil_2|].
  split; [intros n; rewrite lookup_empty, elem_of_nil, is_Some_alt; tauto|].
  split; [intros n; rewrite lookup_empty, elem_of_nil, is_Some_alt; tauto|].
  split; [intros n Hn; apply elem_of_nil in Hn; destruct Hn|].
  split; [intros n Hn; apply elem_of_nil in Hn; destruct Hn|].
  apply map_size_empty.
Qed.

End Cache.

Lemma filter_all {A : Type} (P : A -> Prop) `{!forall x, Decision (P x)} (l : list A) :
  (forall x, x ∈ l -> P x) -> filter P l = l.
Proof.
  induction l as [|x l IH]; intros Hall; [reflexivity|].
  rewrite filter_cons_True by (apply Hall; left).
  f_equal. apply IH. intros y Hy. apply Hall. right. exact Hy.
Qed.

Lemma filter_none {A : Type} (P : A -> Prop) `{!forall x, Decision (P x)} (l : list A) :
  (forall x, x ∈ l -> ~ P x) -> filter P l = [].
Proof.
  induction l as [|x l IH]; intros Hnone; [reflexivity|].
  rewrite filter_cons_False by (apply Hnone; left).
  apply IH. intros y Hy. apply Hnone. right. exact Hy.
Qed.

End MixinFacts.

Lemma text_object_brackets_witness :
  let fresh := Viewer_new (collab := plain) ∅ None (mk_Canvas "" [] []) in
  let BT := mk_Operator "BT" [] in
  let ET := mk_Operator "ET" [] in
  let Tj := mk_Operator "Tj" [PString "Hi"] in
  let shown := (run [call_method "on_BT" BT; call_method "on_Tj" Tj;
                     call_method "on_ET" ET] fresh).2 in
  on_ET ET fresh = (Raise ValueError, fresh) /\
  on_BT BT (with_stack [BT] fresh) = (Raise ValueError, with_stack [BT] fresh) /\
  strings (canvas shown) = ["Hi"%string] /\
  run [call_method "on_BT" BT; call_method "on_Tj" Tj; call_method "on_ET" ET;
       call_method "on_ET" ET; call_method "on_Tj" Tj] fresh
  = (Raise ValueError, shown).
Proof.
  intros fresh BT ET Tj shown.
  assert (Hfresh : ~ inside_text fresh)
    by (apply empty_stack_outside_text; reflexivity).
  assert (Hin : inside_text (with_stack [BT] fresh))
    by (exists [], BT; split; reflexivity).
  assert (Hshown : ~ inside_text shown)
    by (apply empty_stack_outside_text; reflexivity).
  split; [exact (proj2 (proj1 (proj2 (text_object_brackets fresh ET)) Hfresh))|].
  split; [exact (proj1 (proj1 (text_object_brackets (with_stack [BT] fresh) BT) Hin))|].
  split; [reflexivity|].
  exact (proj2 (proj2 (proj2 (text_object_brackets shown ET)) fresh
           [call_method "on_BT" BT; call_method "on_Tj" Tj; call_method "on_ET" ET]
           [call_method "on_Tj" Tj] eq_refl) Hshown).
Defined.

Example decoder_cache_example :
  let F1 := PName "F1" in
  let F2 := PName "F2" in
  let calls :=
    [call_method "on_Tf" (mk_Operator "Tf" [F1; PInteger 12]);
     call_method "on_Tj" (mk_Operator "Tj" [PString "a"]);
     call_method "on_apostrophe" (mk_Operator "'" [PString "b"]);
     call_method "on_TJ"
       (mk_Operator "TJ" [PArray [PString "c"; PInteger (-5); PHexString "64"]]);
     call_method "on_Tf" (mk_Operator "Tf" [F2; PInteger 9]);
     call_method "on_Tj" (mk_Operator "Tj" [PString "e"]);
     call_method "on_Tj" (mk_Operator "Tj" [PString "f"])]%string in
  let self :=
    (run (collab := plain) calls
       (Viewer_new (collab := plain) {["F1"%string := tt]} None
          (mk_Canvas "" [] []))).2 in
  strings (canvas self) = ["a"; "b"; "c"; "64"; "e"; "f"]%string /\
  decoder_reads self
  = [Some "F1"; Some "F1"; Some "F1"; Some "F1"; Some "F2"; Some "F2"]%string /\
  decoder_constructions self = [Some "F1"%string] /\
  decoder_defaults self = [Some "F2"%string].
Proof. vm_compute. repeat split; reflexivity. Qed.

(** ** Further facts about the bit level of the LZW filter *)

Lemma land_1_bit (x : Z) : Z.land 1 x = 0 \/ Z.land 1 x = 1.
Proof.
  assert (H : Z.land 1 x = x mod 2).
  { rewrite Z.land_comm. change 1 with (Z.ones 1).
    rewrite Z.land_ones by lia. reflexivity. }
  rewrite H. pose proof (Z.mod_pos_bound x 2). lia.
Qed.

Lemma bytestobits_length (bytesource : list Z) :
  length (bytestobits bytesource) = (8 * length bytesource)%nat.
Proof.
  unfold bytestobits. induction bytesource as [|value rest IH]; [reflexivity|].
  change (concat (map bits_of_value (value :: rest)))
    with (bits_of_value value ++ concat (map bits_of_value rest)).
  rewrite length_app, IH. simpl. lia.
Qed.

(** [bytestobits] yields eight bits per value of the source, each 0 or 1,
    whatever the values are. *)
Theorem bytestobits_shape (bytesource : list Z) :
  length (bytestobits bytesource) = (8 * length bytesource)%nat /\
  Forall (fun bit => bit = 0 \/ bit = 1) (bytestobits bytesource).
Proof.
  unfold bytestobits. induction bytesource as [|value rest [IHlen IHbits]].
  - split; [reflexivity|constructor].
  - change (concat (map bits_of_value (value :: rest)))
      with (bits_of_value value ++ concat (map bits_of_value rest)).
    split.
    + rewrite length_app, IHlen. simpl. lia.
    + apply Forall_app. split; [|exact IHbits].
      unfold bits_of_value. simpl.
      repeat (constructor; [apply land_1_bit|]). constructor.
Qed.

Lemma lor_pow2_above (a i : Z) :
  0 <= i -> 0 <= a < 2 ^ i -> Z.lor a (Z.shiftl 1 i) = a + 2 ^ i.
Proof.
  intros Hi Ha. rewrite Z.shiftl_1_l.
  assert (Hland : Z.land a (2 ^ i) = 0).
  { apply Z.bits_inj'. intros n Hn.
    rewrite Z.land_spec, Z.bits_0, Z.pow2_bits_eqb by lia.
    destruct (Z.eqb_spec i n) as [<-|Hne]; [|apply andb_false_r].
    rewrite andb_true_r.
    destruct (Z.eq_dec a 0) as [->|Hnz]; [apply Z.bits_0|].
    apply Z.bits_above_log2; [lia|].
    apply Z.log2_lt_pow2; lia. }
  rewrite (Z.add_nocarry_lxor _ _ Hland). symmetry. apply Z.lxor_lor. exact Hland.
Qed.

Lemma intfrombits_loop_value (lsb_first : list Z) :
  forall (i ret : Z), 0 <= i -> 0 <= ret < 2 ^ i ->
    intfrombits_loop lsb_first i ret
    = ret + 2 ^ i * intfrombits_loop lsb_first 0 0 /\
    0 <= intfrombits_loop lsb_first 0 0 < 2 ^ Z.of_nat (length lsb_first).
Proof.
  induction lsb_first as [|b rest IH]; intros i ret Hi Hret.
  - simpl. split; lia.
  - assert (Hpow : 2 ^ (i + 1) = 2 * 2 ^ i)
      by (rewrite Z.pow_add_r by lia; change (2 ^ 1) with 2; lia).
    assert (Hlen : 2 ^ Z.of_nat (length (b :: rest))
                   = 2 * 2 ^ Z.of_nat (length rest)).
    { simpl length. rewrite Nat2Z.inj_succ, Z.pow_succ_r by lia. reflexivity. }
    rewrite Hlen. simpl intfrombits_loop.
    destruct (b =? 0).
    + destruct (IH (i + 1) ret) as [Hv Hr]; [lia|lia|].
      destruct (IH (0 + 1) 0) as [Hv0 _]; [lia|simpl; lia|].
      rewrite Hv, Hv0, Hpow. change (2 ^ (0 + 1)) with 2. split; lia.
    + rewrite (lor_pow2_above ret i) by lia.
      rewrite (lor_pow2_above 0 0) by (simpl; lia).
      destruct (IH (i + 1) (ret + 2 ^ i)) as [Hv Hr]; [lia|lia|].
      destruct (IH (0 + 1) (0 + 2 ^ 0)) as [Hv0 _]; [lia|simpl; lia|].
      rewrite Hv, Hv0, Hpow. change (2 ^ (0 + 1)) with 2. change (2 ^ 0) with 1.
      split; lia.
Qed.

Lemma intfrombits_range (bits : list Z) :
  0 <= intfrombits bits < 2 ^ Z.of_nat (length bits).
Proof.
  unfold intfrombits. rewrite <- length_rev.
  apply (intfrombits_loop_value (rev bits) 0 0); simpl; lia.
Qed.

(** [intfrombits] reads its list as a binary number, most significant bit
    first, every element other than 0 counting as 1: appending a bit doubles
    the value and adds the bit, and a list of [n] elements gives a number
    below [2 ^ n]. *)
Theorem intfrombits_binary :
  intfrombits [] = 0 /\
  (forall (bits : list Z) (b : Z),
     intfrombits (bits ++ [b])
     = 2 * intfrombits bits + (if b =? 0 then 0 else 1)) /\
  (forall bits : list Z, 0 <= intfrombits bits < 2 ^ Z.of_nat (length bits)).
Proof.
  split; [reflexivity|]. split; [|exact intfrombits_range].
  intros bits b. unfold intfrombits. rewrite rev_app_distr. simpl.
  destruct (b =? 0).
  - destruct (intfrombits_loop_value (rev bits) (0 + 1) 0) as [Hv _];
      [lia|simpl; lia|].
    rewrite Hv. change (2 ^ (0 + 1)) with 2. lia.
  - rewrite (lor_pow2_above 0 0) by (simpl; lia).
    destruct (intfrombits_loop_value (rev bits) (0 + 1) (0 + 2 ^ 0)) as [Hv _];
      [lia|simpl; lia|].
    rewrite Hv. change (2 ^ (0 + 1)) with 2. change (2 ^ 0) with 1. lia.
Qed.

Lemma byte_round_trip_all :
  Forall (fun value => intfrombits (bytestobits [value]) = value) (seqZ 0 256).
Proof. apply (bool_decide_unpack _). vm_compute. exact I. Qed.

(** The bits [bytestobits] yields for one byte value, read back by
    [intfrombits], give the value. *)
Theorem byte_round_trip (value : Z) :
  0 <= value < 256 -> intfrombits (bytestobits [value]) = value.
Proof.
  intros Hv. pose proof byte_round_trip_all as Hall.
  rewrite Forall_forall in Hall. apply Hall. apply elem_of_seqZ. lia.
Qed.

Lemma byte_round_trip_witness :
  0 <= 0xA7 < 256 /\ intfrombits (bytestobits [0xA7]) = 0xA7.
Proof. split; [lia|apply byte_round_trip; lia]. Defined.

(** ** Further facts about the bit unpacker *)

Lemma unpack_step_emission (initial_code_size minwidth : Z)
    (st st' : unpack_state) (nextbit : Z) (e : emission) :
  unpack_step initial_code_size minwidth st nextbit = (st', Some e) ->
  em_codepoint e = intfrombits (bits st ++ [nextbit]) /\
  em_width e = Z.of_nat (length (bits st ++ [nextbit])) /\
  em_width e = pointwidth st /\
  bits st' = [].
Proof.
  unfold unpack_step. destruct (ignore st >? 0); [discriminate|].
  destruct (Z.of_nat (length (bits st ++ [nextbit])) =? pointwidth st) eqn:Hfull;
    [|discriminate].
  apply Z.eqb_eq in Hfull.
  destruct (_ || _); intros [= <- <-]; simpl; auto.
Qed.

Lemma unpack_loop_codepoints (initial_code_size minwidth : Z) (bitsource : list Z) :
  forall (st : unpack_state) (e : emission),
    In e (unpack_loop initial_code_size minwidth st bitsource) ->
    0 <= em_codepoint e < 2 ^ em_width e.
Proof.
  induction bitsource as [|nextbit rest IH]; intros st e Hin; [destruct Hin|].
  simpl in Hin.
  destruct (unpack_step initial_code_size minwidth st nextbit) as [st' [e0|]] eqn:Hstep.
  - destruct Hin as [<-|Hin]; [|exact (IH _ _ Hin)].
    destruct (unpack_step_emission _ _ _ _ _ _ Hstep) as (-> & -> & _).
    apply intfrombits_range.
  - exact (IH _ _ Hin).
Qed.

(** Every code point the unpacker yields is read from a full group: it is a
    number of as many bits as the width in effect, whatever the initial code
    size and the bytes are. *)
Theorem unpack_codepoint_range (initial_code_size : Z) (bytesource : list Z)
    (e : emission) :
  In e (unpack_emissions initial_code_size bytesource) ->
  0 <= em_codepoint e < 2 ^ em_width e.
Proof. apply unpack_loop_codepoints. Qed.

Lemma unpack_codepoint_range_witness :
  In (mk_emission 257 9 259) (unpack_emissions 258 [0x00; 0xC0; 0x40]) /\
  0 <= em_codepoint (mk_emission 257 9 259) < 2 ^ em_width (mk_emission 257 9 259).
Proof.
  assert (H : In (mk_emission 257 9 259) (unpack_emissions 258 [0x00; 0xC0; 0x40]))
    by (vm_compute; auto).
  split; [exact H|exact (unpack_codepoint_range _ _ _ H)].
Defined.

Lemma unpack_loop_count (bitsource : list Z) :
  forall st : unpack_state,
    width_fits (codesize st) (pointwidth st) ->
    (9 * length (unpack_loop 258 9 st bitsource)
     <= length (bits st) + length bitsource)%nat.
Proof.
  induction bitsource as [|nextbit rest IH]; intros st Hfit; [simpl; lia|].
  simpl unpack_loop.
  destruct (unpack_step 258 9 st nextbit) as [st' out] eqn:Hstep.
  destruct (unpack_step_inv _ _ _ _ Hfit Hstep) as [Hfit' _].
  specialize (IH st' Hfit').
  destruct out as [e|].
  - destruct (unpack_step_emission _ _ _ _ _ _ Hstep) as (_ & Hlen & Hw & Hnil).
    rewrite Hnil in IH. rewrite Hw, length_app in Hlen. simpl in Hlen.
    destruct Hfit as [H9 _]. simpl length in *. lia.
  - assert (Hbits : (length (bits st') <= length (bits st) + 1)%nat).
    { revert Hstep. unfold unpack_step.
      destruct (ignore st >? 0); [intros [= <-]; simpl; lia|].
      destruct (_ =? _); [destruct (_ || _); discriminate|].
      intros [= <-]. simpl. rewrite length_app. simpl. lia. }
    simpl length. lia.
Qed.

(** Every code point costs at least nine bits of input: the unpacker yields
    at most eight code points per nine bytes, and none from less than two
    bytes. *)
Theorem unpack_count (bytesource : list Z) :
  (9 * length (unpack 258 bytesource) <= 8 * length bytesource)%nat.
Proof.
  unfold unpack, unpack_emissions. rewrite length_map, minwidth_of_258.
  pose proof (unpack_loop_count (bytestobits bytesource) (unpack_init 258)
                width_fits_initial) as H.
  rewrite (bytestobits_length bytesource) in H. simpl in H. lia.
Qed.

(** The width at which a code point is read is the bit length of the code
    size counter, which is 258 plus the number of code points yielded since
    the last control code. *)
Theorem unpack_width_formula (bytesource : list Z)
    (l1 l2 : list emission) (e : emission) :
  unpack_emissions 258 bytesource = l1 ++ e :: l2 ->
  em_codesize e = 258 + since_reset (map em_codepoint l1) /\
  em_width e = Z.log2 (em_codesize e) + 1.
Proof.
  intros Heq.
  destruct (unpack_emission_counter _ _ _ _ Heq) as [Hc (H9 & Hlo & Hhi)].
  split; [exact Hc|].
  rewrite (Z.log2_unique (em_codesize e) (em_width e - 1)); [lia|lia|].
  replace (Z.succ (em_width e - 1)) with (em_width e) by lia. lia.
Qed.

Lemma unpack_width_formula_witness :
  unpack_emissions 258 [0x00; 0xC0; 0x40]
  = [mk_emission 1 9 258] ++ mk_emission 257 9 259 :: [] /\
  em_codesize (mk_emission 257 9 259)
  = 258 + since_reset (map em_codepoint [mk_emission 1 9 258]) /\
  em_width (mk_emission 257 9 259) = Z.log2 (em_codesize (mk_emission 257 9 259)) + 1.
Proof.
  assert (H : unpack_emissions 258 [0x00; 0xC0; 0x40]
              = [mk_emission 1 9 258] ++ mk_emission 257 9 259 :: [])
    by (vm_compute; reflexivity).
  split; [exact H|exact (unpack_width_formula _ _ _ _ H)].
Defined.

(** ** Further facts about the decoder *)

Lemma clear_codes_literals :
  Forall (fun k => _codepoints _clear_codes !! k = Some (PyBytes [k])) (seqZ 0 256).
Proof. apply (bool_decide_unpack _). vm_compute. exact I. Qed.

Lemma clear_codes_values :
  map_Forall (fun k v => is_control k = false -> is_PyBytes v = true)
    (_codepoints _clear_codes).
Proof. apply (bool_decide_unpack _). vm_compute. exact I. Qed.

Lemma clear_codes_bytes : codebook_bytes _clear_codes.
Proof.
  split; [exact clear_codes_ok|]. split; [rewrite clear_codes_size; lia|].
  split; [|split].
  - intros k Hk. pose proof clear_codes_literals as Hall.
    rewrite Forall_forall in Hall. apply Hall. apply elem_of_seqZ. lia.
  - intros k v Hctl Hv. exact (clear_codes_values k v Hv Hctl).
  - left. reflexivity.
Qed.

Lemma codebook_bytes_insert (d : Lzw.Decoder) (b p : list Z) :
  codebook_bytes d ->
  codebook_bytes
    (mk_Decoder (<[code_size d := PyBytes b]> (_codepoints d)) (PyBytes p)).
Proof.
  intros (Hok & Hsize & Hlit & Hval & Hpre).
  destruct (codebook_insert_next d (PyBytes b) (PyBytes p) Hok eq_refl eq_refl)
    as [Hok' Hsz].
  split; [exact Hok'|]. split; [lia|]. split; [|split]; simpl.
  - intros k Hk. rewrite lookup_insert_ne by lia. apply Hlit. exact Hk.
  - intros k v Hctl. rewrite lookup_insert.
    case_decide; [intros [= <-]; reflexivity|apply Hval; exact Hctl].
  - right. reflexivity.
Qed.

Lemma decode_codepoint_bytes (d d' : Lzw.Decoder) (cp : Z) (ret : pyval) :
  codebook_bytes d ->
  _decode_codepoint d cp = Ok (ret, d') ->
  codebook_bytes d' /\ is_PyBytes ret = true.
Proof.
  intros Hb. pose proof Hb as (Hok & Hsize & Hlit & Hval & Hpre).
  unfold _decode_codepoint.
  destruct (cp =? CLEAR_CODE) eqn:Hclear.
  { intros [= <- <-]. split; [exact clear_codes_bytes|reflexivity]. }
  destruct (cp =? END_OF_INFO_CODE) eqn:Heoi; [discriminate|].
  assert (Hctl : is_control cp = false)
    by (unfold is_control; rewrite Hclear, Heoi; reflexivity).
  destruct (_codepoints d !! cp) as [ret'|] eqn:Hlook.
  - pose proof (Hval cp ret' Hctl Hlook) as Hret.
    destruct ret' as [|r|]; try discriminate Hret.
    destruct (_prefix d) as [|p|n] eqn:Hp; simpl.
    + intros [= <- <-]. split; [|reflexivity].
      destruct Hok as (Hkeys & Hvals & _).
      split; [|split; [exact Hsize|split; [exact Hlit|split; [exact Hval|]]]].
      * split; [exact Hkeys|]. split; [exact Hvals|]. simpl. discriminate.
      * right. reflexivity.
    + intros [= <- <-]. split; [|reflexivity].
      apply codebook_bytes_insert. exact Hb.
    + discriminate.
  - destruct (_prefix d) as [|p|n] eqn:Hp; simpl; try discriminate.
    intros [= <- <-]. split; [|reflexivity].
    apply codebook_bytes_insert. exact Hb.
Qed.

Lemma decode_codepoint_errors (d : Lzw.Decoder) (cp : Z) (e : exn) :
  _decode_codepoint d cp = Raise e -> e = ValueError \/ e = TypeError.
Proof.
  unfold _decode_codepoint.
  destruct (cp =? CLEAR_CODE); [discriminate|].
  destruct (cp =? END_OF_INFO_CODE); [intros [= <-]; auto|].
  destruct (_codepoints d !! cp) as [[|r|m]|]; destruct (_prefix d) as [|p|n];
    simpl; try discriminate; intros [= <-]; auto.
Qed.

(** The loop of [Decoder.decode] over a well-formed decoder: either it
    returns bytes, appended to whatever was decoded before, or it raises
    [ValueError] or [TypeError], whatever was decoded before. *)
Lemma decode_loop_outcome (codepoints : list Z) :
  forall d : Lzw.Decoder, codebook_bytes d ->
    (exists (b : list Z) (d' : Lzw.Decoder),
       codebook_bytes d' /\
       forall acc, decode_loop d (PyBytes acc) codepoints
                   = Ok (PyBytes (acc ++ b), d')) \/
    (exists e : exn,
       (e = ValueError \/ e = TypeError) /\
       forall acc, decode_loop d (PyBytes acc) codepoints = Raise e).
Proof.
  induction codepoints as [|cp rest IH]; intros d Hb.
  - left. exists [], d. split; [exact Hb|]. intros acc. simpl.
    rewrite app_nil_r. reflexivity.
  - simpl. destruct (_decode_codepoint d cp) as [[ret d1]|e] eqn:Hstep.
    + destruct (decode_codepoint_bytes _ _ _ _ Hb Hstep) as [Hb1 Hret].
      destruct ret as [|r|]; try discriminate Hret.
      destruct (IH d1 Hb1) as [(b & d' & Hb' & Hrun)|(e & He & Hrun)].
      * left. exists (r ++ b), d'. split; [exact Hb'|]. intros acc. simpl.
        rewrite Hrun, app_assoc. reflexivity.
      * right. exists e. split; [exact He|]. intros acc. simpl. apply Hrun.
    + right. exists e. split; [exact (decode_codepoint_errors _ _ _ Hstep)|].
      intros acc. reflexivity.
Qed.

Lemma decode_loop_app (l1 l2 : list Z) :
  forall (d : Lzw.Decoder) (decoded : pyval),
    decode_loop d decoded (l1 ++ l2)
    = ('(decoded1, d1) ← decode_loop d decoded l1; decode_loop d1 decoded1 l2).
Proof.
  induction l1 as [|cp rest IH]; intros d decoded; [reflexivity|].
  simpl. destruct (_decode_codepoint d cp) as [[ret d1]|e]; [|reflexivity].
  simpl. destruct (py_add decoded ret) as [decoded'|e]; [|reflexivity].
  simpl. apply IH.
Qed.

Lemma decompress_bytes_or_error (compressed_bytes : list Z) :
  match decompress compressed_bytes with
  | Ok out => is_PyBytes out = true
  | Raise e => e = ValueError \/ e = TypeError
  end.
Proof.
  unfold decompress, decodefrombytes, Decoder_decode.
  destruct (decode_loop_outcome
              (unpack (_unpacker_initial_code_size ByteDecoder_new) compressed_bytes)
              (_decoder ByteDecoder_new) clear_codes_bytes)
    as [(b & d' & _ & Hrun)|(e & He & Hrun)].
  - rewrite (Hrun []). reflexivity.
  - rewrite (Hrun []). exact He.
Qed.

(** [decompress] returns a [bytes] value or raises [ValueError] or
    [TypeError], and nothing else. *)
Theorem decompress_outcome (compressed_bytes : list Z) :
  match decompress compressed_bytes with
  | Ok out => is_PyBytes out = true
  | Raise e => e = ValueError \/ e = TypeError
  end.
Proof. exact (decompress_bytes_or_error compressed_bytes). Qed.

Lemma decode_literal_step (d : Lzw.Decoder) (cp : Z) :
  codebook_bytes d -> 0 <= cp < 256 ->
  exists d', _decode_codepoint d cp = Ok (PyBytes [cp], d').
Proof.
  intros (Hok & Hsize & Hlit & Hval & Hpre) Hcp. unfold _decode_codepoint.
  replace (cp =? CLEAR_CODE) with false
    by (symmetry; apply Z.eqb_neq; unfold CLEAR_CODE; lia).
  replace (cp =? END_OF_INFO_CODE) with false
    by (symmetry; apply Z.eqb_neq; unfold END_OF_INFO_CODE; lia).
  rewrite (Hlit cp Hcp).
  destruct (_prefix d) as [|p|n]; simpl; eauto.
  destruct Hpre; discriminate.
Qed.

(** Code points below 256 stand for themselves: a fresh decoder turns a
    sequence of them into the same sequence of bytes. *)
Theorem decode_literals (codepoints : list Z) :
  Forall (fun cp => 0 <= cp < 256) codepoints ->
  fst <$> Decoder_decode Decoder_new codepoints = Ok (PyBytes codepoints).
Proof.
  intros Hall. unfold Decoder_decode, Decoder_new.
  assert (Hgen : forall (d : Lzw.Decoder) (acc : list Z), codebook_bytes d ->
            fst <$> decode_loop d (PyBytes acc) codepoints
            = Ok (PyBytes (acc ++ codepoints))).
  { induction Hall as [|cp rest Hcp Hrest IH]; intros d acc Hb.
    - simpl. rewrite app_nil_r. reflexivity.
    - destruct (decode_literal_step d cp Hb Hcp) as [d1 Hstep].
      destruct (decode_codepoint_bytes _ _ _ _ Hb Hstep) as [Hb1 _].
      simpl decode_loop. rewrite Hstep. simpl.
      rewrite (IH d1 (acc ++ [cp]) Hb1), <- app_assoc. reflexivity. }
  exact (Hgen _clear_codes [] clear_codes_bytes).
Qed.

Lemma decode_literals_witness :
  Forall (fun cp => 0 <= cp < 256) [104; 105; 104; 105] /\
  fst <$> Decoder_decode Decoder_new [104; 105; 104; 105]
  = Ok (PyBytes [104; 105; 104; 105]).
Proof.
  assert (H : Forall (fun cp => 0 <= cp < 256) [104; 105; 104; 105])
    by (repeat constructor; lia).
  split; [exact H|exact (decode_literals _ H)].
Defined.

(** A CLEAR code point makes the decoder start afresh: decoding what comes
    before it and what comes after it with two fresh decoders gives the same
    bytes, and the same exception when either part raises. *)
Theorem decode_clear_restarts (before after : list Z) :
  Decoder_decode Decoder_new (before ++ CLEAR_CODE :: after)
  = ('(out1, _) ← Decoder_decode Decoder_new before;
     '(out2, d) ← Decoder_decode Decoder_new after;
     out ← py_add out1 out2;
     Ok (out, d)).
Proof.
  unfold Decoder_decode, Decoder_new. rewrite decode_loop_app.
  destruct (decode_loop_outcome before _clear_codes clear_codes_bytes)
    as [(b1 & d1 & _ & Hrun1)|(e & _ & Hrun1)]; rewrite (Hrun1 []); [|reflexivity].
  simpl.
  destruct (decode_loop_outcome after _clear_codes clear_codes_bytes)
    as [(b2 & d2 & _ & Hrun2)|(e & _ & Hrun2)].
  - rewrite (Hrun2 (b1 ++ [])), (Hrun2 []). simpl.
    rewrite app_nil_r. reflexivity.
  - rewrite (Hrun2 (b1 ++ [])), (Hrun2 []). reflexivity.
Qed.

Lemma decode_reaches_bytes (codepoints : list Z) (out : pyval) (d : Lzw.Decoder) :
  Decoder_decode Decoder_new codepoints = Ok (out, d) -> codebook_bytes d.
Proof.
  unfold Decoder_decode, Decoder_new. intros Hrun.
  destruct (decode_loop_outcome codepoints _clear_codes clear_codes_bytes)
    as [(b & d' & Hb & Hrun')|(e & _ & Hrun')]; rewrite (Hrun' []) in Hrun.
  - injection Hrun as _ <-. exact Hb.
  - discriminate.
Qed.

Lemma decode_reaches_prefix (codepoints : list Z) (out : pyval) (d : Lzw.Decoder) :
  Decoder_decode Decoder_new codepoints = Ok (out, d) ->
  is_PyNone (_prefix d) = after_reset codepoints.
Proof.
  intros Hrun.
  destruct (decode_loop_inv _ _ _ _ _ clear_codes_ok Hrun) as [_ Hpre].
  exact Hpre.
Qed.

(** Right after a reset the decoder knows the code points 0 to 257 only: any
    other code point raises [TypeError], for the prefix is [None]. *)
Theorem decode_unknown_after_reset (codepoints : list Z) (cp : Z)
    (out : pyval) (d : Lzw.Decoder) :
  Decoder_decode Decoder_new codepoints = Ok (out, d) ->
  after_reset codepoints = true ->
  ~ 0 <= cp < 258 ->
  _decode_codepoint d cp = Raise TypeError.
Proof.
  intros Hrun Hafter Hcp.
  pose proof (decode_reaches_prefix _ _ _ Hrun) as Hpre. rewrite Hafter in Hpre.
  destruct (decode_reaches_bytes _ _ _ Hrun) as ((Hkeys & _ & Hsz) & _).
  specialize (Hsz Hpre).
  unfold _decode_codepoint.
  replace (cp =? CLEAR_CODE) with false
    by (symmetry; apply Z.eqb_neq; unfold CLEAR_CODE; lia).
  replace (cp =? END_OF_INFO_CODE) with false
    by (symmetry; apply Z.eqb_neq; unfold END_OF_INFO_CODE; lia).
  destruct (_codepoints d !! cp) as [v|] eqn:Hlook.
  - assert (Hs : is_Some (_codepoints d !! cp)) by eauto.
    apply Hkeys in Hs. lia.
  - destruct (_prefix d); try discriminate Hpre. reflexivity.
Qed.

Lemma decode_unknown_after_reset_witness :
  exists (out : pyval) (d : Lzw.Decoder),
    Decoder_decode Decoder_new [97; 256] = Ok (out, d) /\
    after_reset [97; 256] = true /\
    ~ 0 <= 300 < 258 /\
    _decode_codepoint d 300 = Raise TypeError.
Proof.
  do 2 eexists.
  split; [vm_compute; reflexivity|].
  split; [reflexivity|]. split; [lia|].
  eapply (decode_unknown_after_reset [97; 256] 300).
  - vm_compute. reflexivity.
  - reflexivity.
  - lia.
Defined.

(** Away from a reset the decoder takes any code point outside its code
    book, whatever its value: it returns the previous output unchanged and
    enters it once more in the code book, at the next free index. *)
Theorem decode_unknown_repeats_prefix (codepoints : list Z) (cp : Z)
    (out : pyval) (d : Lzw.Decoder) :
  Decoder_decode Decoder_new codepoints = Ok (out, d) ->
  after_reset codepoints = false ->
  ~ 0 <= cp < code_size d ->
  _decode_codepoint d cp
  = Ok (_prefix d,
        mk_Decoder (<[code_size d := _prefix d]> (_codepoints d)) (_prefix d)).
Proof.
  intros Hrun Hafter Hcp.
  pose proof (decode_reaches_prefix _ _ _ Hrun) as Hpre. rewrite Hafter in Hpre.
  destruct (decode_reaches_bytes _ _ _ Hrun)
    as ((Hkeys & _ & _) & Hsize & _ & _ & Hbytes).
  unfold _decode_codepoint.
  replace (cp =? CLEAR_CODE) with false
    by (symmetry; apply Z.eqb_neq; unfold CLEAR_CODE; lia).
  replace (cp =? END_OF_INFO_CODE) with false
    by (symmetry; apply Z.eqb_neq; unfold END_OF_INFO_CODE; lia).
  destruct (_codepoints d !! cp) as [v|] eqn:Hlook.
  - assert (Hs : is_Some (_codepoints d !! cp)) by eauto.
    apply Hkeys in Hs. lia.
  - destruct (_prefix d) as [|p|n]; try discriminate Hpre.
    + simpl. rewrite app_nil_r. reflexivity.
    + destruct Hbytes; discriminate.
Qed.

Lemma decode_unknown_repeats_prefix_witness :
  exists (out : pyval) (d : Lzw.Decoder),
    Decoder_decode Decoder_new [97; 98] = Ok (out, d) /\
    after_reset [97; 98] = false /\
    ~ 0 <= 4000 < code_size d /\
    fst <$> _decode_codepoint d 4000 = Ok (PyBytes [98]).
Proof.
  do 2 eexists.
  split; [vm_compute; reflexivity|].
  split; [reflexivity|]. split; [vm_compute; intros [_ H]; discriminate H|].
  erewrite (decode_unknown_repeats_prefix [97; 98] 4000).
  - reflexivity.
  - vm_compute. reflexivity.
  - reflexivity.
  - vm_compute. intros [_ H]. discriminate H.
Defined.

(** A stream whose code points contain END-OF-INFO never comes out of the
    filter entry point decompressed: [decode] returns empty bytes, or lets the
    [TypeError] of an earlier code point through. *)
Theorem decode_end_of_info (V : Type)
    (_remove_predictors : pyval -> option V -> option V -> result pyval)
    (data : list Z) (params : gmap string V) :
  In END_OF_INFO_CODE (unpack 258 data) ->
  decode V _remove_predictors data params = Ok (PyBytes []) \/
  decode V _remove_predictors data params = Raise TypeError.
Proof.
  intros Hin. pose proof (decompress_end_of_info data Hin) as Hfail.
  pose proof (decompress_bytes_or_error data) as Hout.
  unfold decode. destruct (decompress data) as [out|e]; [discriminate Hfail|].
  destruct Hout as [-> | ->]; simpl; auto.
Qed.

Lemma decode_end_of_info_witness :
  In END_OF_INFO_CODE (unpack 258 [0x00; 0xC0; 0x40]) /\
  (decode unit (fun data _ _ => Ok data) [0x00; 0xC0; 0x40] ∅ = Ok (PyBytes []) \/
   decode unit (fun data _ _ => Ok data) [0x00; 0xC0; 0x40] ∅ = Raise TypeError).
Proof.
  assert (H : In END_OF_INFO_CODE (unpack 258 [0x00; 0xC0; 0x40]))
    by (vm_compute; auto).
  split; [exact H|exact (decode_end_of_info _ _ _ _ H)].
Defined.

Lemma decode_loop_size (codepoints : list Z) :
  forall (d d' : Lzw.Decoder) (decoded out : pyval) (n : Z),
    codebook_ok d -> 0 <= n ->
    code_size d = 258 + Z.max 0 (n - 1) ->
    (is_PyNone (_prefix d) = true <-> n = 0) ->
    decode_loop d decoded codepoints = Ok (out, d') ->
    code_size d' = 258 + Z.max 0 (since_reset_from n codepoints - 1).
Proof.
  induction codepoints as [|cp rest IH]; intros d d' decoded out n Hok Hn Hsz Hpre.
  - simpl. intros [= _ <-]. exact Hsz.
  - simpl.
    destruct (_decode_codepoint d cp) as [[ret d1]|] eqn:Hstep; [|discriminate].
    simpl. destruct (py_add decoded ret) as [decoded'|]; [|discriminate]. simpl.
    intros Hloop.
    destruct (decode_codepoint_inv _ _ _ _ Hok Hstep) as (Hok1 & Hpre1 & Hsz1).
    assert (Heoi : (cp =? END_OF_INFO_CODE) = false).
    { destruct (cp =? END_OF_INFO_CODE) eqn:E; [|reflexivity].
      apply Z.eqb_eq in E. subst cp. discriminate Hstep. }
    unfold is_control. rewrite Heoi, orb_false_r.
    destruct (cp =? CLEAR_CODE) eqn:Hclear.
    + apply (IH d1 d' decoded' out 0 Hok1); [lia|lia| |exact Hloop].
      rewrite Hpre1. tauto.
    + apply (IH d1 d' decoded' out (n + 1) Hok1); [lia| | |exact Hloop].
      * rewrite Hsz1. destruct (is_PyNone (_prefix d)) eqn:Hp.
        -- assert (n = 0) by (apply Hpre; reflexivity). lia.
        -- assert (n <> 0) by (intros H0; apply Hpre in H0; discriminate). lia.
      * rewrite Hpre1. split; [discriminate|lia].
Qed.

(** The code book grows by one entry per code point from the second one
    after a reset on: after [n] code points since the last CLEAR (or since
    the construction) it holds [258 + max 0 (n - 1)] entries, one less than
    the counter of the unpacker from the first code point on. *)
Theorem decode_code_size (codepoints : list Z) (out : pyval) (d : Lzw.Decoder) :
  Decoder_decode Decoder_new codepoints = Ok (out, d) ->
  code_size d = 258 + Z.max 0 (since_reset codepoints - 1).
Proof.
  intros Hrun.
  apply (decode_loop_size codepoints _clear_codes d (PyBytes []) out 0
           clear_codes_ok); [lia|exact clear_codes_size| |exact Hrun].
  simpl. tauto.
Qed.

Lemma decode_code_size_witness :
  exists (out : pyval) (d : Lzw.Decoder),
    Decoder_decode Decoder_new [103; 256; 97; 98; 98] = Ok (out, d) /\
    code_size d = 260.
Proof.
  do 2 eexists.
  split; [vm_compute; reflexivity|].
  eapply (decode_code_size [103; 256; 97; 98; 98]).
  vm_compute. reflexivity.
Defined.

(** ** Further facts about the serializer *)

Section SerializerOutcome.

Context {collab : Collaborators}.

Lemma pyobj_induction (P : pyobj -> Prop) :
  P PNone ->
  (forall b, P (PBoolean b)) ->
  (forall s, P (PName s)) ->
  (forall s, P (PString s)) ->
  (forall s, P (PHexString s)) ->
  (forall s, P (PStr s)) ->
  (forall n, P (PInteger n)) ->
  (forall text, P (PDecimal text)) ->
  (forall elms, Forall P elms -> P (PArray elms)) ->
  (forall items, Forall (fun kv => P kv.2) items -> P (PDictionary items)) ->
  (forall name args, Forall P args -> P (POperator name args)) ->
  (forall dictionary filtered,
     Forall (fun kv => P kv.2) dictionary -> P (PInlineImage dictionary filtered)) ->
  (forall text, P (POther text)) ->
  forall obj, P obj.
Proof.
  intros HNone HBool HName HString HHex HStr HInt HDec HArr HDict HOp HImg HOther.
  fix IH 1. intros obj.
  destruct obj as [ | b | s | s | s | s | n | text | elms | items
                  | name args | dictionary filtered | text ].
  - exact HNone.
  - exact (HBool b).
  - exact (HName s).
  - exact (HString s).
  - exact (HHex s).
  - exact (HStr s).
  - exact (HInt n).
  - exact (HDec text).
  - apply HArr. revert elms. fix IHl 1. intros [|x l]; [constructor|].
    constructor; [exact (IH x)|exact (IHl l)].
  - apply HDict. revert items. fix IHl 1. intros [|[k v] l]; [constructor|].
    constructor; [exact (IH v)|exact (IHl l)].
  - apply HOp. revert args. fix IHl 1. intros [|x l]; [constructor|].
    constructor; [exact (IH x)|exact (IHl l)].
  - apply HImg. revert dictionary. fix IHl 1. intros [|[k v] l]; [constructor|].
    constructor; [exact (IH v)|exact (IHl l)].
  - exact (HOther text).
Qed.

Lemma for_each_outcome {A B : Type} (f : A -> result B) (g : A -> bool)
    (l : list A) :
  Forall (fun x => is_ok (f x) = g x /\ raises_ValueError_only (f x)) l ->
  is_ok (for_each f l) = forallb g l /\ raises_ValueError_only (for_each f l).
Proof.
  induction 1 as [|x l [Hok Herr] _ [IHok IHerr]]; [split; [reflexivity|discriminate]|].
  simpl. destruct (f x) as [y|e] eqn:Hfx.
  - simpl in Hok. rewrite <- Hok. simpl.
    destruct (for_each f l) as [ys|e] eqn:Hl.
    + split; [exact IHok|discriminate].
    + split; [exact IHok|]. intros e' [= <-]. apply IHerr. reflexivity.
  - simpl in Hok. rewrite <- Hok. split; [reflexivity|].
    intros e' [= <-]. apply Herr. reflexivity.
Qed.

Lemma bind_outcome {A B : Type} (r : result A) (k : A -> B) :
  is_ok (a ← r; Ok (k a)) = is_ok r /\
  (raises_ValueError_only r -> raises_ValueError_only (a ← r; Ok (k a))).
Proof.
  destruct r as [a|e]; simpl; (split; [reflexivity|]).
  - intros _ e He. discriminate He.
  - intros Hr e' [= <-]. apply Hr. reflexivity.
Qed.

Lemma each_kept (l : list (string * pyobj)) :
  (fix each (l : list (string * pyobj)) : result (list string) :=
     match l with
     | [] => Ok []
     | (k, v) :: rest =>
         if bool_decide (k ∈ ["F"; "Filter"; "DecodeParms"]%string)
         then each rest
         else
           s ← object_to_string v;
           ss ← each rest;
           Ok (format_entry k s :: ss)
     end) l
  = for_each (fun kv => format_entry kv.1 <$> object_to_string kv.2)
      (filter kept l).
Proof.
  induction l as [|[k v] rest IH]; [reflexivity|].
  rewrite filter_cons. unfold kept at 1. simpl fst.
  destruct (decide (k ∉ ["F"; "Filter"; "DecodeParms"]%string)) as [Hk|Hk].
  - rewrite bool_decide_eq_false_2 by exact Hk.
    simpl for_each. rewrite <- IH.
    destruct (object_to_string v); reflexivity.
  - rewrite bool_decide_eq_true_2 by (destruct (decide (k ∈ ["F"; "Filter"; "DecodeParms"]%string)); tauto).
    exact IH.
Qed.

(** The serialization of an inline image: the entries of its dictionary in
    order, without those under F, Filter and DecodeParms, then the forced
    filter entry, and the payload as [b85encode] gives it, closed by [~>]. *)
Lemma object_to_string_inline_image (dictionary : list (string * pyobj))
    (filtered : list Z) :
  object_to_string (PInlineImage dictionary filtered)
  = (parts ← for_each (fun kv => format_entry kv.1 <$> object_to_string kv.2)
               (filter kept dictionary);
     Ok (newline +:+ "BI" +:+ newline
         +:+ (String.concat " " parts +:+ " /Filter /ASCII85Decode")
         +:+ newline +:+ "ID" +:+ newline
         +:+ (b85encode filtered +:+ "~>") +:+ newline +:+ "EI")%string).
Proof. simpl. rewrite each_kept. reflexivity. Qed.

(** What stands under the keys F, Filter and DecodeParms of an inline image
    has no part in its serialization, not even when it cannot be serialized. *)
Theorem inline_image_left_out_keys (dictionary : list (string * pyobj))
    (filtered : list Z) :
  object_to_string (PInlineImage dictionary filtered)
  = object_to_string (PInlineImage (filter kept dictionary) filtered).
Proof.
  rewrite !object_to_string_inline_image.
  replace (filter kept (filter kept dictionary)) with (filter kept dictionary);
    [reflexivity|].
  induction dictionary as [|kv rest IH]; [reflexivity|].
  rewrite filter_cons. destruct (decide (kept kv)) as [Hk|Hk]; [|exact IH].
  rewrite filter_cons_True by exact Hk. f_equal. exact IH.
Qed.

Lemma entries_outcome (l : list (string * pyobj)) :
  Forall (fun kv => is_ok (object_to_string kv.2) = serializable kv.2 /\
                    raises_ValueError_only (object_to_string kv.2)) l ->
  Forall (fun kv : string * pyobj =>
            is_ok (format_entry kv.1 <$> object_to_string kv.2)
            = (let '(_, v) := kv in serializable v) /\
            raises_ValueError_only (format_entry kv.1 <$> object_to_string kv.2)) l.
Proof.
  intros Hall. eapply Forall_impl; [exact Hall|].
  intros [k v] [Hok Herr]. simpl in *.
  destruct (object_to_string v) as [s|e]; simpl in *;
    (split; [exact Hok|]); [discriminate|].
  intros e' [= <-]. apply Herr. reflexivity.
Qed.

Ltac bind_outcome_tac Hok Herr :=
  match goal with
  | |- context [mbind (fun x => Ok (@?k x)) ?r] =>
      let Hb1 := fresh in
      let Hb2 := fresh in
      destruct (bind_outcome r k) as [Hb1 Hb2];
      split; [rewrite Hb1; exact Hok|exact (Hb2 Herr)]
  end.

Lemma object_to_string_serializable (obj : pyobj) :
  is_ok (object_to_string obj) = serializable obj /\
  forall e, object_to_string obj = Raise e -> e = ValueError.
Proof.
  change (is_ok (object_to_string obj) = serializable obj /\
          raises_ValueError_only (object_to_string obj)).
  induction obj as [ | b | s | s | s | s | n | text | elms IH | items IH
                   | name args IH | dictionary filtered IH | text ]
    using pyobj_induction;
    try (split; [reflexivity|];
         intros e He; simpl in He;
         first [discriminate He|injection He as <-; reflexivity]).
  - simpl object_to_string. rewrite each_array.
    destruct (for_each_outcome object_to_string serializable elms IH) as [Hok Herr].
    bind_outcome_tac Hok Herr.
  - simpl object_to_string. rewrite each_entry.
    destruct (for_each_outcome _ _ items (entries_outcome items IH)) as [Hok Herr].
    bind_outcome_tac Hok Herr.
  - simpl object_to_string. rewrite each_array.
    destruct (for_each_outcome object_to_string serializable args IH) as [Hok Herr].
    bind_outcome_tac Hok Herr.
  - rewrite object_to_string_inline_image.
    assert (Hkept : Forall (fun kv => is_ok (object_to_string kv.2) = serializable kv.2 /\
                              raises_ValueError_only (object_to_string kv.2))
                      (filter kept dictionary)).
    { apply Forall_forall. intros kv Hin.
      apply list_elem_of_filter in Hin as [_ Hin].
      rewrite Forall_forall in IH. exact (IH _ Hin). }
    destruct (for_each_outcome _ _ _ (entries_outcome _ Hkept)) as [Hok Herr].
    assert (Hser : forallb (fun '(_, v) => serializable v) (filter kept dictionary)
                   = serializable (PInlineImage dictionary filtered)).
    { simpl serializable. clear.
      induction dictionary as [|[k v] rest IHd]; [reflexivity|].
      rewrite filter_cons. simpl forallb.
      destruct (decide (kept (k, v))) as [Hk|Hk].
      - rewrite (bool_decide_eq_true_2 _ Hk). simpl. rewrite IHd. reflexivity.
      - rewrite (bool_decide_eq_false_2 _ Hk). simpl. exact IHd. }
    rewrite Hser in Hok.
    bind_outcome_tac Hok Herr.
Qed.

(** [object_to_string] returns exactly for the objects made of recognized
    classes all the way down, and raises nothing but [ValueError]. *)
Theorem object_to_string_outcome (obj : pyobj) :
  is_ok (object_to_string obj) = serializable obj /\
  forall e, object_to_string obj = Raise e -> e = ValueError.
Proof. exact (object_to_string_serializable obj). Qed.

(** [after_handler] on an object with an unrecognized value anywhere in it
    raises [ValueError] and leaves the viewer as it was; on any other object
    it returns and appends the serialization to the reconstructed text. *)
Theorem after_handler_outcome (obj : pyobj) (self : Viewer) :
  (serializable obj = false ->
     after_handler obj self = (Raise ValueError, self)) /\
  (serializable obj = true ->
     exists s : string,
       object_to_string obj = Ok s /\
       (after_handler obj self).1 = Ok tt /\
       text_content (canvas (after_handler obj self).2)
       = (text_content (canvas self) +:+ s)%string).
Proof.
  destruct (object_to_string_serializable obj) as [Hok Herr].
  unfold after_handler, mbind, M_mbind, M_bind, M_lift, set_canvas.
  destruct (object_to_string obj) as [s|e]; simpl in Hok; rewrite <- Hok.
  - split; [discriminate|]. intros _. exists s. auto.
  - split; [|discriminate]. intros _. rewrite (Herr e eq_refl). reflexivity.
Qed.

End SerializerOutcome.

(** ** Further facts about the text operators *)

Section MixinRuns.

Context {collab : Collaborators}.

(** A property that the four ways of assigning to the viewer keep is kept by
    every handler and by every run. *)
Section Keeps.

Variable I : Viewer -> Prop.

Hypothesis keeps_decoder : keeps I decoder.
Hypothesis keeps_set_canvas : forall f, keeps I (set_canvas f).
Hypothesis keeps_set_gss_state : forall f, keeps I (set_gss_state f).
Hypothesis keeps_set_stack : forall f, keeps I (set_bracket_commands_stack f).

Lemma keeps_ret {A : Type} (a : A) : keeps I (mret a).
Proof. intros self HI. exact HI. Qed.

Lemma keeps_raise {A : Type} (e : exn) : keeps I (@M_raise _ A e).
Proof. intros self HI. exact HI. Qed.

Lemma keeps_lift {A : Type} (r : result A) : keeps I (M_lift r).
Proof. intros self HI. exact HI. Qed.

Lemma keeps_bind {A B : Type} (m : M A) (k : A -> M B) :
  keeps I m -> (forall a, keeps I (k a)) -> keeps I (m ≫= k).
Proof.
  intros Hm Hk self HI. unfold mbind, M_mbind, M_bind.
  specialize (Hm self HI).
  destruct (m self) as [[a|e] self1]; simpl in *; [apply Hk|]; exact Hm.
Qed.

Lemma keeps_decode_string (s : pyobj) : keeps I (decode_string s).
Proof.
  unfold decode_string. apply keeps_bind; [exact keeps_decoder|].
  intros d. destruct s; apply keeps_lift.
Qed.

Lemma keeps_on_Tj (op : Operator) : keeps I (on_Tj op).
Proof.
  unfold on_Tj. destruct (args op) as [|arg0 others]; [apply keeps_raise|].
  apply keeps_bind; [apply keeps_decode_string|]. intros s.
  apply keeps_bind; [apply keeps_set_canvas|]. intros _. apply keeps_ret.
Qed.

Lemma keeps_on_TJ_loop (arr : list pyobj) : keeps I (on_TJ_loop arr).
Proof.
  induction arr as [|elm rest IH]; [apply keeps_ret|].
  simpl. apply keeps_bind.
  - assert (Hshown : keeps I (s ← decode_string elm; _ ← strings_append s;
                              mret (escaped s))).
    { apply keeps_bind; [apply keeps_decode_string|]. intros s.
      apply keeps_bind; [apply keeps_set_canvas|]. intros _. apply keeps_ret. }
    destruct elm; try apply keeps_ret; exact Hshown.
  - intros elm'. apply keeps_bind; [exact IH|]. intros rest'. apply keeps_ret.
Qed.

Lemma keeps_on_TJ (op : Operator) : keeps I (on_TJ op).
Proof.
  unfold on_TJ. destruct (args op) as [|arr others]; [apply keeps_raise|].
  destruct arr as [ | ? | ? | ? | ? | ? | ? | ? | elms | [|? ?] | ? ? | ? ? | ? ];
    try apply keeps_raise; try apply keeps_ret.
  apply keeps_bind; [apply keeps_on_TJ_loop|]. intros elms'. apply keeps_ret.
Qed.

Lemma keeps_on_BT (op : Operator) : keeps I (on_BT op).
Proof.
  intros self HI. unfold on_BT. destruct (bool_decide _); [exact HI|].
  exact (keeps_set_stack _ self HI).
Qed.

Lemma keeps_on_ET (op : Operator) : keeps I (on_ET op).
Proof.
  intros self HI. unfold on_ET. destruct (bool_decide _); [exact HI|].
  exact (keeps_set_stack _ self HI).
Qed.

Lemma keeps_on_Tf (op : Operator) : keeps I (on_Tf op).
Proof.
  unfold on_Tf. apply keeps_bind; [apply keeps_set_gss_state|].
  intros _. apply keeps_ret.
Qed.

Lemma keeps_handlers (attr : string) (h : handler) (op : Operator) :
  assoc attr class_handlers = Some h -> keeps I (h op).
Proof.
  pose proof (keeps_on_BT op). pose proof (keeps_on_ET op).
  pose proof (keeps_on_Tf op). pose proof (keeps_on_Tj op).
  pose proof (keeps_on_TJ op).
  assert (keeps I (on_Tstar op)) by apply keeps_ret.
  unfold class_handlers. simpl.
  repeat (case_bool_decide; [intros [= <-]; assumption|]).
  discriminate.
Qed.

Lemma keeps_do_call (c : call) : keeps I (do_call c).
Proof.
  destruct c as [attr op|obj|obj|on_gss on_canvas]; unfold do_call.
  - destruct (assoc attr class_handlers) as [h|] eqn:Hh; [|apply keeps_raise].
    apply keeps_bind; [exact (keeps_handlers _ _ _ Hh)|].
    intros _. apply keeps_ret.
  - unfold after_handler. apply keeps_bind; [apply keeps_lift|].
    intros s. apply keeps_set_canvas.
  - apply keeps_set_canvas.
  - apply keeps_bind; [apply keeps_set_gss_state|].
    intros _. apply keeps_set_canvas.
Qed.

Lemma keeps_run (calls : list call) : keeps I (run calls).
Proof.
  induction calls as [|c rest IH]; [apply keeps_ret|].
  simpl. apply keeps_bind; [apply keeps_do_call|]. intros _. exact IH.
Qed.

End Keeps.

(** Whatever the calls of a run are, every decoder in the cache is the one
    the resources give for its font name: built from the font of that name,
    or the default decoder when the resources have none. *)
Theorem decoder_cache_contents (resources : gmap string Font)
    (gss : GraphicsState) (canvas : Canvas) (calls : list call) :
  map_Forall (fun name d => d = decoder_for resources name)
    (_decoders (run calls (Viewer_new resources gss canvas)).2).
Proof.
  set (I := fun self : Viewer =>
              resources_Font self = resources /\
              map_Forall (fun name d => d = decoder_for resources name)
                (_decoders self)).
  assert (HI : I (run calls (Viewer_new resources gss canvas)).2).
  { apply (keeps_run I); try (intros f self H; exact H).
    - intros self [Hres Hall]. unfold decoder.
      destruct (_decoders self !! font_name (gss_state self)) eqn:Hhit;
        [split; assumption|].
      unfold Font_entry.
      destruct (font_name (gss_state self) ≫= fun n => resources_Font self !! n)
        eqn:Hfont;
        (split; [exact Hres|]); simpl; apply map_Forall_insert_2; try exact Hall;
        unfold decoder_for; rewrite <- Hres, Hfont; reflexivity.
    - split; [reflexivity|]. apply map_Forall_empty. }
  exact (proj2 HI).
Qed.

(** A decoder in the cache stays there: no call replaces or removes it,
    whatever happens to the graphics state. *)
Theorem decoder_cache_stable (calls : list call) (self : Viewer)
    (name : option string) (d : StringDecoder Font) :
  _decoders self !! name = Some d ->
  _decoders (run calls self).2 !! name = Some d.
Proof.
  apply (keeps_run (fun v => _decoders v !! name = Some d));
    try (intros f v H; exact H).
  intros v Hd. unfold decoder.
  destruct (_decoders v !! font_name (gss_state v)) eqn:Hhit; [exact Hd|].
  assert (Hne : font_name (gss_state v) <> name) by congruence.
  destruct (Font_entry v (font_name (gss_state v))); simpl;
    rewrite lookup_insert_ne by exact Hne; exact Hd.
Qed.

(** *** The bracket stack *)

Lemma stack_unchanged_at_most_one_BT (self self' : Viewer) :
  bracket_commands_stack self' = bracket_commands_stack self ->
  at_most_one_BT self -> at_most_one_BT self'.
Proof. unfold at_most_one_BT. intros ->. auto. Qed.

Lemma on_BT_at_most_one_BT (op : Operator) (self : Viewer) :
  name op = "BT"%string -> at_most_one_BT self -> at_most_one_BT (on_BT op self).2.
Proof.
  intros Hname Hone. unfold on_BT.
  destruct (bool_decide (mode self = Some "BT"%string)) eqn:Hmode; [exact Hone|].
  apply bool_decide_eq_false in Hmode.
  destruct Hone as [Hnil|(op0 & Hstack & Hname0)].
  - right. exists op. simpl. rewrite Hnil. auto.
  - exfalso. apply Hmode. unfold mode. rewrite Hstack. simpl. congruence.
Qed.

Lemma on_ET_at_most_one_BT (op : Operator) (self : Viewer) :
  at_most_one_BT self -> at_most_one_BT (on_ET op self).2.
Proof.
  intros Hone. unfold on_ET.
  destruct (bool_decide (mode self <> Some "BT"%string)); [exact Hone|].
  destruct Hone as [Hnil|(op0 & Hstack & _)]; left; simpl.
  - rewrite Hnil. reflexivity.
  - rewrite Hstack. reflexivity.
Qed.

Lemma do_call_at_most_one_BT (c : call) (self : Viewer) :
  opens_with_BT c -> at_most_one_BT self -> at_most_one_BT (do_call c self).2.
Proof.
  intros Hopen Hone.
  destruct c as [attr op|obj|obj|on_gss on_canvas]; unfold do_call.
  - simpl in Hopen.
    assert (Hh : forall h : handler,
               at_most_one_BT (h op self).2 ->
               at_most_one_BT ((_ ← h op; mret tt) self).2).
    { intros h Hhop. unfold mbind, mret, M_mbind, M_mret, M_bind, M_ret.
      destruct (h op self) as [[op'|e] self1]; exact Hhop. }
    assert (HTj := proj1 (proj2 (on_Tj_shows_text_only op self))).
    assert (HTJ := proj1 (proj2 (on_TJ_shows_text_only op self))).
    unfold class_handlers. simpl.
    case_bool_decide as Hattr.
    { apply Hh, on_BT_at_most_one_BT; [apply Hopen; congruence|exact Hone]. }
    case_bool_decide; [apply Hh, on_ET_at_most_one_BT; exact Hone|].
    case_bool_decide; [apply Hh; exact Hone|].
    case_bool_decide;
      [apply Hh; exact (stack_unchanged_at_most_one_BT _ _ HTj Hone)|].
    case_bool_decide;
      [apply Hh; exact (stack_unchanged_at_most_one_BT _ _ HTj Hone)|].
    case_bool_decide;
      [apply Hh; exact (stack_unchanged_at_most_one_BT _ _ HTJ Hone)|].
    case_bool_decide;
      [apply Hh; exact (stack_unchanged_at_most_one_BT _ _ HTJ Hone)|].
    case_bool_decide; [apply Hh; exact Hone|].
    exact Hone.
  - unfold after_handler. unfold_M.
    destruct (object_to_string obj); exact Hone.
  - exact Hone.
  - exact Hone.
Qed.

(** When [on_BT] is called on BT operators only, text objects never nest: at
    every point of every run the bracket stack is empty or holds a single BT
    operator. *)
Theorem bracket_stack_depth (resources : gmap string Font)
    (gss : GraphicsState) (canvas : Canvas) (calls : list call) :
  Forall opens_with_BT calls ->
  at_most_one_BT (run calls (Viewer_new resources gss canvas)).2.
Proof.
  intros Hall.
  assert (Hgen : forall self, at_most_one_BT self -> at_most_one_BT (run calls self).2).
  { induction Hall as [|c rest Hc Hrest IH]; intros self Hone; [exact Hone|].
    simpl. unfold mbind, M_mbind, M_bind.
    pose proof (do_call_at_most_one_BT c self Hc Hone) as Hstep.
    destruct (do_call c self) as [[[]|e] self1]; simpl in *; [apply IH|]; exact Hstep. }
  apply Hgen. left. reflexivity.
Qed.

(** *** The canvas *)

Lemma string_app_nil_r (s : string) : (s +:+ "")%string = s.
Proof.
  induction s as [|a s IH]; [reflexivity|].
  change (String a (s +:+ "") = String a s)%string. f_equal. exact IH.
Qed.

Lemma string_app_assoc (s1 s2 s3 : string) :
  ((s1 +:+ s2) +:+ s3)%string = (s1 +:+ (s2 +:+ s3))%string.
Proof.
  induction s1 as [|a s IH]; [reflexivity|].
  change (String a ((s +:+ s2) +:+ s3) = String a (s +:+ (s2 +:+ s3)))%string.
  f_equal. exact IH.
Qed.

Lemma concat_empty_cons (s : string) (l : list string) :
  String.concat "" (s :: l) = (s +:+ String.concat "" l)%string.
Proof.
  destruct l as [|x l]; [|reflexivity].
  simpl. symmetry. apply string_app_nil_r.
Qed.

Lemma handler_leaves_canvas_text (attr : string) (h : handler) (op : Operator)
    (self : Viewer) :
  assoc attr class_handlers = Some h ->
  text_content (canvas (h op self).2) = text_content (canvas self) /\
  inline_images (canvas (h op self).2) = inline_images (canvas self).
Proof.
  assert (HBT : text_content (canvas (on_BT op self).2) = text_content (canvas self) /\
                inline_images (canvas (on_BT op self).2) = inline_images (canvas self)).
  { unfold on_BT. destruct (bool_decide _); auto. }
  assert (HET : text_content (canvas (on_ET op self).2) = text_content (canvas self) /\
                inline_images (canvas (on_ET op self).2) = inline_images (canvas self)).
  { unfold on_ET. destruct (bool_decide _); auto. }
  destruct (on_Tj_shows_text_only op self) as (_ & _ & _ & HTj1 & HTj2).
  destruct (on_TJ_shows_text_only op self) as (_ & _ & _ & HTJ1 & HTJ2).
  unfold class_handlers. simpl.
  repeat (case_bool_decide; [intros [= <-]; auto|]).
  discriminate.
Qed.

(** Over a run that ends normally and calls nothing outside the mixin, the
    reconstructed text grows by the serializations of the objects passed to
    [after_handler], in order and with nothing between them, and the inline
    images by the objects passed to [on_inline_image]. *)
Theorem canvas_after_run (calls : list call) (self self' : Viewer) :
  forallb (fun c => negb (is_outside c)) calls = true ->
  run calls self = (Ok tt, self') ->
  exists parts : list string,
    for_each object_to_string (after_objects calls) = Ok parts /\
    text_content (canvas self')
    = (text_content (canvas self) +:+ String.concat "" parts)%string /\
    inline_images (canvas self')
    = inline_images (canvas self) ++ inline_image_objects calls.
Proof.
  revert self. induction calls as [|c rest IH]; intros self Hin Hrun.
  - injection Hrun as <-. exists []. simpl.
    rewrite string_app_nil_r, app_nil_r. auto.
  - simpl in Hin. apply andb_prop in Hin as [Hc Hrest].
    simpl in Hrun. unfold mbind, M_mbind, M_bind in Hrun.
    destruct (do_call c self) as [[[]|e] self1] eqn:Hcall; [|discriminate].
    destruct (IH self1 Hrest Hrun) as (parts & Hparts & Htext & Himg).
    destruct c as [attr op|obj|obj|on_gss on_canvas]; [| | |discriminate Hc].
    + exists parts.
      change (after_objects (call_method attr op :: rest)) with (after_objects rest).
      change (inline_image_objects (call_method attr op :: rest))
        with (inline_image_objects rest).
      unfold do_call in Hcall.
      destruct (assoc attr class_handlers) as [h|] eqn:Hh; [|discriminate].
      destruct (handler_leaves_canvas_text _ _ op self Hh) as [Ht Hi].
      unfold mbind, mret, M_mbind, M_mret, M_bind, M_ret in Hcall.
      destruct (h op self) as [[op'|e] self2]; [|discriminate].
      injection Hcall as <-. simpl in Ht, Hi.
      rewrite Htext, Himg, Ht, Hi. auto.
    + unfold do_call, after_handler in Hcall.
      unfold mbind, M_mbind, M_bind, M_lift, set_canvas in Hcall.
      destruct (object_to_string obj) as [s|e] eqn:Hs; [|discriminate].
      injection Hcall as <-. simpl in Htext, Himg.
      exists (s :: parts).
      change (after_objects (call_after_handler obj :: rest))
        with (obj :: after_objects rest).
      change (inline_image_objects (call_after_handler obj :: rest))
        with (inline_image_objects rest).
      cbn [for_each]. rewrite Hs, Hparts. split; [reflexivity|].
      rewrite Htext, Himg, concat_empty_cons, string_app_assoc. auto.
    + unfold do_call, on_inline_image, set_canvas in Hcall.
      injection Hcall as <-. simpl in Htext, Himg.
      exists parts.
      change (after_objects (call_on_inline_image obj :: rest))
        with (after_objects rest).
      change (inline_image_objects (call_on_inline_image obj :: rest))
        with (obj :: inline_image_objects rest).
      rewrite Htext, Himg, <- app_assoc. auto.
Qed.

(** *** Showing an array of strings *)







End MixinRuns.


Lemma after_handler_outcome_witness :
  let self := Viewer_new (collab := plain) (∅ : gmap string unit) None
                (mk_Canvas "BT" [] []) in
  after_handler (POperator "Tf" [PName "F1"; POther "9.5"]) self
  = (Raise ValueError, self) /\
  exists s : string,
    object_to_string (collab := plain) (POperator "Tf" [PName "F1"; PInteger 9]) = Ok s /\
    (after_handler (POperator "Tf" [PName "F1"; PInteger 9]) self).1 = Ok tt /\
    text_content (canvas (after_handler (POperator "Tf" [PName "F1"; PInteger 9]) self).2)
    = ("BT" +:+ s)%string.
Proof.
  intros self. split.
  - exact (proj1 (after_handler_outcome (collab := plain)
                    (POperator "Tf" [PName "F1"; POther "9.5"]) self) eq_refl).
  - exact (proj2 (after_handler_outcome (collab := plain)
                    (POperator "Tf" [PName "F1"; PInteger 9]) self) eq_refl).
Defined.

Lemma bracket_stack_depth_witness :
  let BT := call_method "on_BT" (mk_Operator "BT" []) in
  let ET := call_method "on_ET" (mk_Operator "ET" []) in
  let Tj := call_method "on_Tj" (mk_Operator "Tj" [PString "a"]) in
  Forall (opens_with_BT (collab := plain)) [BT; Tj; ET; BT; BT] /\
  at_most_one_BT
    (run [BT; Tj; ET; BT; BT]
       (Viewer_new (collab := plain) ∅ None (mk_Canvas "" [] []))).2.
Proof.
  intros BT ET Tj.
  assert (H : Forall (opens_with_BT (collab := plain)) [BT; Tj; ET; BT; BT]).
  { repeat constructor; simpl; intros Hattr; first [reflexivity|discriminate Hattr]. }
  split; [exact H|exact (bracket_stack_depth (collab := plain) _ _ _ _ H)].
Defined.

Lemma canvas_after_run_witness :
  let calls :=
    [call_method "on_Tj" (mk_Operator "Tj" [PString "Hi"]);
     call_after_handler (POperator "Tj" [PStr "(Hi)"]);
     call_on_inline_image (PInlineImage [] []);
     call_after_handler (POperator "ET" [])]%string in
  let self := Viewer_new (collab := plain) ∅ None (mk_Canvas "" [] []) in
  let self' := (run calls self).2 in
  run calls self = (Ok tt, self') /\
  text_content (canvas self') = (newline +:+ "(Hi) Tj" +:+ newline +:+ " ET")%string /\
  inline_images (canvas self') = [PInlineImage [] []].
Proof.
  intros calls self self'.
  assert (Hrun : run calls self = (Ok tt, self')) by reflexivity.
  split; [exact Hrun|].
  destruct (canvas_after_run (collab := plain) calls self self' eq_refl Hrun)
    as (parts & Hparts & Htext & Himg).
  injection Hparts as <-. split; [exact Htext|exact Himg].
Defined.


(** ** END-OF-INFO and byte alignment *)

Lemma unpack_loop_app (initial_code_size minwidth : Z) (l1 l2 : list Z) :
  forall st : unpack_state,
    unpack_loop initial_code_size minwidth st (l1 ++ l2)
    = unpack_loop initial_code_size minwidth st l1
      ++ unpack_loop initial_code_size minwidth
           (unpack_state_after initial_code_size minwidth st l1) l2.
Proof.
  induction l1 as [|b rest IH]; intros st; [reflexivity|].
  simpl. destruct (unpack_step initial_code_size minwidth st b) as [st' [e|]];
    simpl; rewrite IH; reflexivity.
Qed.

Lemma unpack_state_after_app (initial_code_size minwidth : Z) (l1 l2 : list Z) :
  forall st : unpack_state,
    unpack_state_after initial_code_size minwidth st (l1 ++ l2)
    = unpack_state_after initial_code_size minwidth
        (unpack_state_after initial_code_size minwidth st l1) l2.
Proof. induction l1 as [|b rest IH]; intros st; [reflexivity|]. simpl. apply IH. Qed.

Lemma unpack_step_offset (initial_code_size minwidth : Z)
    (st : unpack_state) (nextbit : Z) :
  offset (unpack_step initial_code_size minwidth st nextbit).1
  = (offset st + 1) mod 8.
Proof.
  unfold unpack_step. destruct (ignore st >? 0); [reflexivity|].
  destruct (_ =? _); [|reflexivity].
  destruct (_ || _); reflexivity.
Qed.

Lemma unpack_state_after_offset (initial_code_size minwidth : Z) (l : list Z) :
  forall st : unpack_state,
    0 <= offset st < 8 ->
    offset (unpack_state_after initial_code_size minwidth st l)
    = (offset st + Z.of_nat (length l)) mod 8.
Proof.
  induction l as [|b rest IH]; intros st Hst.
  - simpl. rewrite Z.add_0_r, Z.mod_small; lia.
  - simpl unpack_state_after. rewrite IH.
    + rewrite unpack_step_offset, Zplus_mod_idemp_l. f_equal. simpl length. lia.
    + rewrite unpack_step_offset. apply Z.mod_pos_bound. lia.
Qed.

(** While [ignore] is positive the bits are dropped. *)
Lemma unpack_skip (initial_code_size minwidth : Z) (l : list Z) :
  forall st : unpack_state,
    ignore st = Z.of_nat (length l) ->
    unpack_loop initial_code_size minwidth st l = [] /\
    unpack_state_after initial_code_size minwidth st l
    = mk_unpack_state (bits st)
        (offset (unpack_state_after initial_code_size minwidth st l))
        0 (codesize st) (pointwidth st).
Proof.
  induction l as [|b rest IH]; intros st Hignore.
  - split; [reflexivity|]. destruct st as [b o i c p].
    simpl in *. change (Z.of_nat 0) with 0 in Hignore. subst i. reflexivity.
  - simpl length in Hignore.
    assert (Hstep : unpack_step initial_code_size minwidth st b
                    = (mk_unpack_state (bits st) ((offset st + 1) mod 8)
                         (ignore st - 1) (codesize st) (pointwidth st), None)).
    { unfold unpack_step.
      replace (ignore st >? 0) with true by (symmetry; apply Z.gtb_lt; lia).
      reflexivity. }
    simpl. rewrite Hstep. simpl.
    destruct (IH (mk_unpack_state (bits st) ((offset st + 1) mod 8)
                    (ignore st - 1) (codesize st) (pointwidth st))) as [Hloop Hstate];
      [simpl; lia|].
    split; [exact Hloop|exact Hstate].
Qed.

Lemma unpack_loop_emission_at (initial_code_size minwidth : Z) (l : list Z) :
  forall (st : unpack_state) (e : emission),
    In e (unpack_loop initial_code_size minwidth st l) ->
    exists (pre post : list Z) (x : Z) (st2 : unpack_state),
      l = pre ++ x :: post /\
      unpack_step initial_code_size minwidth
        (unpack_state_after initial_code_size minwidth st pre) x = (st2, Some e).
Proof.
  induction l as [|b rest IH]; intros st e Hin; [destruct Hin|].
  simpl in Hin.
  destruct (unpack_step initial_code_size minwidth st b) as [st' out] eqn:Hstep.
  assert (Hrest : In e (unpack_loop initial_code_size minwidth st' rest) ->
            exists pre post x st2,
              b :: rest = pre ++ x :: post /\
              unpack_step initial_code_size minwidth
                (unpack_state_after initial_code_size minwidth st pre) x
              = (st2, Some e)).
  { intros Hin'. destruct (IH st' e Hin') as (pre & post & x & st2 & -> & Hx).
    exists (b :: pre), post, x, st2. split; [reflexivity|].
    simpl. rewrite Hstep. exact Hx. }
  destruct out as [e0|]; [|exact (Hrest Hin)].
  destruct Hin as [<-|Hin]; [|exact (Hrest Hin)].
  exists [], rest, b, st'. split; [reflexivity|exact Hstep].
Qed.

Lemma unpack_step_end_of_info (st st2 : unpack_state) (x : Z) (e : emission) :
  unpack_step 258 9 st x = (st2, Some e) ->
  em_codepoint e = END_OF_INFO_CODE ->
  st2 = mk_unpack_state [] ((offset st + 1) mod 8)
          ((8 - (offset st + 1) mod 8) mod 8) 258 9.
Proof.
  unfold unpack_step. destruct (ignore st >? 0); [discriminate|].
  destruct (_ =? pointwidth st); [|discriminate].
  set (cp := intfrombits (bits st ++ [x])).
  destruct (cp =? END_OF_INFO_CODE) eqn:Heoi.
  - rewrite orb_true_r. intros [= <- <-] _. reflexivity.
  - destruct (cp =? CLEAR_CODE); simpl; intros [= <- <-]; simpl; intros Hcp;
      apply Z.eqb_neq in Heoi; contradiction.
Qed.

(** An END-OF-INFO code point read within a byte leaves the unpacker, at
    the end of that byte, as it is at the start of a stream. *)
Lemma unpack_byte_end_of_info (st : unpack_state) (value : Z) (e : emission) :
  offset st = 0 ->
  In e (unpack_loop 258 9 st (bits_of_value value)) ->
  em_codepoint e = END_OF_INFO_CODE ->
  unpack_state_after 258 9 st (bits_of_value value) = unpack_init 258.
Proof.
  intros Hoff Hin Hcp.
  destruct (unpack_loop_emission_at _ _ _ _ _ Hin) as (pre & post & x & st2 & Hl & Hx).
  assert (Hlen : (length pre + 1 + length post = 8)%nat).
  { change 8%nat with (length (bits_of_value value)). rewrite Hl, length_app.
    simpl. lia. }
  set (st1 := unpack_state_after 258 9 st pre) in *.
  assert (Hoff1 : offset st1 = Z.of_nat (length pre)).
  { unfold st1. rewrite unpack_state_after_offset by lia.
    rewrite Hoff, Z.add_0_l. apply Z.mod_small. lia. }
  pose proof (unpack_step_end_of_info _ _ _ _ Hx Hcp) as Hst2.
  rewrite Hoff1 in Hst2.
  assert (Hignore : ignore st2 = Z.of_nat (length post)).
  { rewrite Hst2. simpl.
    destruct (Nat.eq_dec (length pre) 7%nat) as [H7|H7].
    - rewrite H7. change ((8 - (Z.of_nat 7 + 1) mod 8) mod 8) with 0. lia.
    - rewrite (Z.mod_small (Z.of_nat (length pre) + 1)) by lia.
      rewrite Z.mod_small by lia. lia. }
  rewrite Hl, unpack_state_after_app. fold st1.
  simpl unpack_state_after. rewrite Hx. simpl fst.
  destruct (unpack_skip 258 9 post st2 Hignore) as [_ Hafter].
  rewrite Hafter.
  rewrite (unpack_state_after_offset 258 9 post st2)
    by (rewrite Hst2; simpl; apply Z.mod_pos_bound; lia).
  rewrite Hst2. simpl. unfold unpack_init. rewrite minwidth_of_258.
  f_equal. rewrite Zplus_mod_idemp_l.
  replace (Z.of_nat (length pre) + 1 + Z.of_nat (length post)) with 8 by lia.
  reflexivity.
Qed.

Lemma bytestobits_app (l1 l2 : list Z) :
  bytestobits (l1 ++ l2) = bytestobits l1 ++ bytestobits l2.
Proof. unfold bytestobits. rewrite map_app, concat_app. reflexivity. Qed.

(** When the byte that completes an END-OF-INFO code point is the last one
    read, the bits left in it are dropped and what follows is unpacked as a
    stream of its own, at the initial width. *)
Theorem unpack_end_of_info_realigns (before after : list Z) (value : Z) :
  unpack 258 (before ++ [value]) = unpack 258 before ++ [END_OF_INFO_CODE] ->
  unpack 258 (before ++ [value] ++ after)
  = unpack 258 (before ++ [value]) ++ unpack 258 after.
Proof.
  unfold unpack, unpack_emissions. rewrite minwidth_of_258.
  rewrite app_assoc, !bytestobits_app, !unpack_loop_app, !map_app.
  set (st := unpack_state_after 258 9 (unpack_init 258) (bytestobits before)).
  intros Hlast. apply app_inv_head in Hlast.
  change (bytestobits [value]) with (bits_of_value value ++ []) in *.
  rewrite app_nil_r in *.
  assert (Hin : exists e, In e (unpack_loop 258 9 st (bits_of_value value)) /\
                          em_codepoint e = END_OF_INFO_CODE).
  { destruct (unpack_loop 258 9 st (bits_of_value value)) as [|e [|e' l]];
      try discriminate Hlast.
    injection Hlast as He. exists e. split; [left; reflexivity|exact He]. }
  destruct Hin as (e & Hin & He).
  assert (Hoff : offset st = 0).
  { unfold st. rewrite unpack_state_after_offset by (simpl; lia).
    rewrite bytestobits_length. simpl offset.
    replace (0 + Z.of_nat (8 * length before)) with (Z.of_nat (length before) * 8) by lia.
    apply Z.mod_mul. lia. }
  rewrite unpack_state_after_app. fold st.
  rewrite (unpack_byte_end_of_info st value e Hoff Hin He).
  reflexivity.
Qed.

Lemma unpack_end_of_info_realigns_witness :
  unpack 258 ([0x00; 0xC0] ++ [0x40]) = unpack 258 [0x00; 0xC0] ++ [END_OF_INFO_CODE] /\
  unpack 258 ([0x00; 0xC0] ++ [0x40] ++ [0x39; 0x98])
  = unpack 258 ([0x00; 0xC0] ++ [0x40]) ++ unpack 258 [0x39; 0x98].
Proof.
  assert (H : unpack 258 ([0x00; 0xC0] ++ [0x40])
              = unpack 258 [0x00; 0xC0] ++ [END_OF_INFO_CODE])
    by (vm_compute; reflexivity).
  split; [exact H|exact (unpack_end_of_info_realigns _ _ _ H)].
Defined.

Lemma decoder_cache_stable_witness :
  let Tf := fun n => call_method "on_Tf" (mk_Operator "Tf" [PName n; PInteger 9]) in
  let Tj := call_method "on_Tj" (mk_Operator "Tj" [PString "a"]) in
  let self := (run (collab := plain) [Tf "F1"; Tj]%string
                 (Viewer_new (collab := plain) {["F1"%string := tt]} None
                    (mk_Canvas "" [] []))).2 in
  _decoders self !! Some "F1"%string = Some (Decoder tt) /\
  _decoders (run [Tf "F2"; Tj; Tf "F1"; Tj]%string self).2 !! Some "F1"%string
  = Some (Decoder tt).
Proof.
  intros Tf Tj self.
  assert (H : _decoders self !! Some "F1"%string = Some (Decoder tt))
    by (vm_compute; reflexivity).
  split; [exact H|exact (decoder_cache_stable (collab := plain) _ self _ _ H)].
Defined.

(** ** The decoder cache against the show-text operators of a run *)

Section DecoderCache.

Context {collab : Collaborators}.

Lemma decoder_appends_read (self : Viewer) :
  decoder_reads (decoder self).2
  = decoder_reads self ++ [font_name (gss_state self)] /\
  gss_state (decoder self).2 = gss_state self.
Proof.
  unfold decoder.
  destruct (_decoders self !! font_name (gss_state self)); [simpl; auto|].
  destruct (Font_entry self (font_name (gss_state self))); simpl; auto.
Qed.

Lemma decode_string_appends_read (s : pyobj) (self : Viewer) :
  decoder_reads (decode_string s self).2
  = decoder_reads self ++ [font_name (gss_state self)] /\
  gss_state (decode_string s self).2 = gss_state self.
Proof.
  pose proof (decoder_appends_read self) as Hd.
  unfold decode_string, mbind, M_mbind, M_bind.
  destruct (decoder self) as [[d|e] self1]; simpl in *; [|exact Hd].
  destruct s; exact Hd.
Qed.

Lemma on_Tj_reads (op op' : Operator) (self self1 : Viewer) :
  on_Tj op self = (Ok op', self1) ->
  decoder_reads self1 = decoder_reads self ++ [font_name (gss_state self)] /\
  gss_state self1 = gss_state self.
Proof.
  unfold on_Tj. destruct (args op) as [|arg0 others]; [discriminate|].
  pose proof (decode_string_appends_read arg0 self) as Hd.
  unfold mbind, mret, M_mbind, M_mret, M_bind, M_ret, strings_append, set_canvas.
  destruct (decode_string arg0 self) as [[s|e] self2]; [|discriminate].
  intros [= _ <-]. exact Hd.
Qed.

Lemma on_TJ_loop_reads (arr : list pyobj) :
  forall (self self1 : Viewer) (arr' : list pyobj),
    on_TJ_loop arr self = (Ok arr', self1) ->
    decoder_reads self1
    = decoder_reads self
      ++ replicate (length (List.filter is_text arr)) (font_name (gss_state self)) /\
    gss_state self1 = gss_state self.
Proof.
  induction arr as [|elm rest IH]; intros self self1 arr' Hrun.
  - injection Hrun as _ <-. simpl. rewrite app_nil_r. auto.
  - assert (Hplain : is_text elm = false ->
              (elm' ← mret elm; rest' ← on_TJ_loop rest; mret (elm' :: rest')) self
              = (Ok arr', self1) ->
              decoder_reads self1
              = decoder_reads self
                ++ replicate (length (List.filter is_text (elm :: rest)))
                     (font_name (gss_state self)) /\
              gss_state self1 = gss_state self).
    { intros Htext Hrun'. unfold mbind, mret, M_mbind, M_mret, M_bind, M_ret in Hrun'.
      destruct (on_TJ_loop rest self) as [[rest'|e] self2] eqn:Hrest; [|discriminate].
      injection Hrun' as _ <-. simpl. rewrite Htext. exact (IH _ _ _ Hrest). }
    assert (Hshown : is_text elm = true ->
              (elm' ← (s ← decode_string elm; _ ← strings_append s; mret (escaped s));
               rest' ← on_TJ_loop rest; mret (elm' :: rest')) self
              = (Ok arr', self1) ->
              decoder_reads self1
              = decoder_reads self
                ++ replicate (length (List.filter is_text (elm :: rest)))
                     (font_name (gss_state self)) /\
              gss_state self1 = gss_state self).
    { intros Htext Hrun'.
      destruct (decode_string_appends_read elm self) as [Hreads Hgss].
      unfold mbind, mret, M_mbind, M_mret, M_bind, M_ret in Hrun'.
      destruct (decode_string elm self) as [[s|e] self2]; [|discriminate].
      unfold strings_append, set_canvas in Hrun'. simpl in Hreads, Hgss.
      match type of Hrun' with
      | context [on_TJ_loop rest ?v] => set (self3 := v) in *
      end.
      destruct (on_TJ_loop rest self3) as [[rest'|e] self4] eqn:Hrest; [|discriminate].
      injection Hrun' as _ <-.
      destruct (IH _ _ _ Hrest) as [Hreads' Hgss'].
      subst self3. simpl in Hreads', Hgss'.
      simpl List.filter. rewrite Htext. simpl length. simpl replicate.
      rewrite Hreads', Hgss', Hreads, Hgss, <- app_assoc. auto. }
    simpl in Hrun.
    destruct elm; first [exact (Hplain eq_refl Hrun)|exact (Hshown eq_refl Hrun)].
Qed.

Lemma on_TJ_reads (op op' : Operator) (self self1 : Viewer) :
  on_TJ op self = (Ok op', self1) ->
  decoder_reads self1
  = decoder_reads self
    ++ fonts_decoded_by (call_method "on_TJ" op) (font_name (gss_state self)) /\
  gss_state self1 = gss_state self.
Proof.
  unfold on_TJ. simpl fonts_decoded_by.
  destruct (args op) as [|arr others]; [discriminate|].
  destruct arr as [ | ? | ? | ? | ? | ? | ? | ? | elms | [|? ?] | ? ? | ? ? | ? ];
    try discriminate;
    try (intros [= _ <-]; rewrite app_nil_r; auto).
  unfold mbind, mret, M_mbind, M_mret, M_bind, M_ret.
  destruct (on_TJ_loop elms self) as [[elms'|e] self2] eqn:Hloop; [|discriminate].
  intros [= _ <-]. exact (on_TJ_loop_reads _ _ _ _ Hloop).
Qed.

Lemma do_call_reads (c : call) (self self1 : Viewer) :
  do_call c self = (Ok tt, self1) ->
  decoder_reads self1
  = decoder_reads self ++ fonts_decoded_by c (font_name (gss_state self)) /\
  gss_state self1 = gss_after c (gss_state self).
Proof.
  destruct c as [attr op|obj|obj|on_gss on_canvas]; unfold do_call.
  - assert (Hh : forall (h : handler) (fs : list (option string)) (g : GraphicsState),
               (forall op' self2, h op self = (Ok op', self2) ->
                  decoder_reads self2 = decoder_reads self ++ fs /\
                  gss_state self2 = g) ->
               (_ ← h op; mret tt) self = (Ok tt, self1) ->
               decoder_reads self1 = decoder_reads self ++ fs /\
               gss_state self1 = g).
    { intros h fs g HP. unfold mbind, mret, M_mbind, M_mret, M_bind, M_ret.
      destruct (h op self) as [[op'|e] self2] eqn:Hhop; [|discriminate].
      intros [= <-]. exact (HP _ _ eq_refl). }
    unfold class_handlers. cbn [assoc].
    case_bool_decide as H1; [subst attr; apply Hh; intros op' self2; unfold on_BT;
      destruct (bool_decide _); [discriminate|];
      intros [= _ <-]; simpl; rewrite app_nil_r; auto|].
    case_bool_decide as H2; [subst attr; apply Hh; intros op' self2; unfold on_ET;
      destruct (bool_decide _); [discriminate|];
      intros [= _ <-]; simpl; rewrite app_nil_r; auto|].
    case_bool_decide as H3; [subst attr; apply Hh; intros op' self2;
      intros [= _ <-]; simpl; rewrite app_nil_r; auto|].
    case_bool_decide as H4; [subst attr; apply Hh; intros op' self2 Hrun;
      exact (on_Tj_reads _ _ _ _ Hrun)|].
    case_bool_decide as H5; [subst attr; apply Hh; intros op' self2 Hrun;
      exact (on_Tj_reads _ _ _ _ Hrun)|].
    case_bool_decide as H6; [subst attr; apply Hh; intros op' self2 Hrun;
      exact (on_TJ_reads _ _ _ _ Hrun)|].
    case_bool_decide as H7; [subst attr; apply Hh; intros op' self2 Hrun;
      exact (on_TJ_reads _ _ _ _ Hrun)|].
    case_bool_decide as H8; [subst attr; apply Hh; intros op' self2;
      intros [= _ <-]; simpl; rewrite app_nil_r; auto|].
    discriminate.
  - unfold after_handler, mbind, M_mbind, M_bind, M_lift, set_canvas.
    destruct (object_to_string obj); [|discriminate].
    intros [= <-]. simpl. rewrite app_nil_r. auto.
  - unfold on_inline_image, set_canvas. intros [= <-]. simpl.
    rewrite app_nil_r. auto.
  - unfold mbind, M_mbind, M_bind, set_gss_state, set_canvas.
    intros [= <-]. simpl. rewrite app_nil_r. auto.
Qed.

(** Over a run that ends normally the decoder is read once for every string
    the show-text operators decode, under the font name current then. *)
Lemma run_reads (calls : list call) :
  forall self self' : Viewer,
    run calls self = (Ok tt, self') ->
    decoder_reads self' = decoder_reads self ++ decoding_fonts (gss_state self) calls.
Proof.
  induction calls as [|c rest IH]; intros self self' Hrun.
  - injection Hrun as <-. simpl. rewrite app_nil_r. reflexivity.
  - simpl in Hrun. unfold mbind, M_mbind, M_bind in Hrun.
    destruct (do_call c self) as [[[]|e] self1] eqn:Hcall; [|discriminate].
    destruct (do_call_reads _ _ _ Hcall) as [Hreads Hgss].
    rewrite (IH _ _ Hrun), Hreads, Hgss, <- app_assoc. reflexivity.
Qed.

(** C9, as the code has it. Over a run that ends normally, the font names
    under which the show-text operators decode a string being counted without
    repetition: the decoder is read once per decoded string; [Decoder(...)] is
    run exactly once for each of these names that the resources have a font
    for and never otherwise; the other names take [default_decoder], once
    each; and the cache holds these names and no other, each with the decoder
    the resources give for it, however many strings were decoded. *)
Theorem decoders_built_once_per_font (resources : gmap string Font)
    (gss : GraphicsState) (canvas : Canvas) (calls : list call) (self' : Viewer) :
  run calls (Viewer_new resources gss canvas) = (Ok tt, self') ->
  let fonts := decoding_fonts gss calls in
  let names := remove_dups fonts in
  decoder_reads self' = fonts /\
  decoder_constructions self' ≡ₚ filter (has_font resources) names /\
  decoder_defaults self' ≡ₚ filter (fun n => ~ has_font resources n) names /\
  length (decoder_constructions self') = length (filter (has_font resources) names) /\
  size (_decoders self') = length names /\
  (forall n, _decoders self' !! n
             = if decide (n ∈ fonts) then Some (decoder_for resources n) else None).
Proof.
  intros Hrun fonts names.
  pose proof (run_reads _ _ _ Hrun) as Hfonts. simpl in Hfonts. fold fonts in Hfonts.
  pose proof (preserves_run resources calls _ (cache_ok_new resources gss canvas))
    as Hok.
  rewrite Hrun in Hok. simpl in Hok.
  destruct Hok as (Hres & Hnodup & Hset & Hreads & Hcons & Hdef & Hsize).
  assert (Hperm : decoder_constructions self' ++ decoder_defaults self' ≡ₚ names).
  { apply NoDup_Permutation; [exact Hnodup|apply NoDup_remove_dups|].
    intros n. unfold names. rewrite elem_of_remove_dups, <- Hfonts, Hset, Hreads.
    tauto. }
  assert (Hcons' : forall n, n ∈ decoder_constructions self' -> has_font resources n).
  { intros n Hn. specialize (Hcons n Hn). unfold Font_entry in Hcons.
    rewrite Hres in Hcons. exact Hcons. }
  assert (Hdef' : forall n, n ∈ decoder_defaults self' -> ~ has_font resources n).
  { intros n Hn Hfont. specialize (Hdef n Hn). unfold Font_entry in Hdef.
    rewrite Hres in Hdef. unfold has_font in Hfont. rewrite Hdef in Hfont.
    destruct Hfont; discriminate. }
  assert (Hbuilt : decoder_constructions self' ≡ₚ filter (has_font resources) names).
  { rewrite <- Hperm, filter_app.
    rewrite (filter_all _ (decoder_constructions self')) by exact Hcons'.
    rewrite (filter_none _ (decoder_defaults self')) by exact Hdef'.
    rewrite app_nil_r. reflexivity. }
  assert (Hcontents : resources_Font self' = resources /\
            map_Forall (fun name d => d = decoder_for resources name)
              (_decoders self')).
  { pose proof (keeps_run
                  (fun v => resources_Font v = resources /\
                            map_Forall (fun name d => d = decoder_for resources name)
                              (_decoders v))) as Hkeep.
    assert (Hgoal : (fun v => resources_Font v = resources /\
                       map_Forall (fun name d => d = decoder_for resources name)
                         (_decoders v))
                      (run calls (Viewer_new resources gss canvas)).2).
    { apply Hkeep; try (intros f v H; exact H).
      - intros v [Hr Hall]. unfold decoder.
        destruct (_decoders v !! font_name (gss_state v)) eqn:Hhit;
          [split; assumption|].
        unfold Font_entry.
        destruct (font_name (gss_state v) ≫= fun n => resources_Font v !! n)
          eqn:Hfont;
          (split; [exact Hr|]); simpl; apply map_Forall_insert_2; try exact Hall;
          unfold decoder_for; rewrite <- Hr, Hfont; reflexivity.
      - split; [reflexivity|]. apply map_Forall_empty. }
    rewrite Hrun in Hgoal. exact Hgoal. }
  split; [exact Hfonts|]. split; [exact Hbuilt|]. split.
  { rewrite <- Hperm, filter_app.
    rewrite (filter_none _ (decoder_constructions self'))
      by (intros n Hn Hnot; exact (Hnot (Hcons' n Hn))).
    rewrite (filter_all _ (decoder_defaults self')) by exact Hdef'.
    reflexivity. }
  split; [rewrite Hbuilt; reflexivity|].
  split; [rewrite Hsize, Hperm; reflexivity|].
  intros n. destruct (decide (n ∈ fonts)) as [Hin|Hout].
  - rewrite <- Hfonts in Hin. apply Hreads in Hin as [d Hd].
    rewrite Hd. f_equal. exact (proj2 Hcontents n d Hd).
  - destruct (_decoders self' !! n) as [d|] eqn:Hd; [|reflexivity].
    exfalso. apply Hout. rewrite <- Hfonts. apply Hreads. eauto.
Qed.

End DecoderCache.

Lemma decoders_built_once_per_font_witness :
  let Tf := fun n => call_method "on_Tf" (mk_Operator "Tf" [PName n; PInteger 9]) in
  let Tj := fun s => call_method "on_Tj" (mk_Operator "Tj" [PString s]) in
  let calls :=
    [Tf "F1"; Tj "a"; Tj "b";
     call_method "on_TJ"
       (mk_Operator "TJ" [PArray [PString "c"; PInteger (-5); PHexString "64"]]);
     Tf "F2"; Tj "e"; Tj "f";
     Tf "F3"; call_method "on_TJ" (mk_Operator "TJ" [PArray [PInteger (-120)]])]%string in
  let resources : gmap string unit := {["F1"%string := tt]} in
  let self' := (run (collab := plain) calls
                  (Viewer_new (collab := plain) resources None (mk_Canvas "" [] []))).2 in
  run calls (Viewer_new (collab := plain) resources None (mk_Canvas "" [] []))
  = (Ok tt, self') /\
  decoder_reads self' = decoding_fonts (collab := plain) None calls /\
  length (decoder_constructions self') = 1%nat /\
  size (_decoders self') = 2%nat /\
  _decoders self' !! Some "F1"%string = Some (Decoder tt) /\
  _decoders self' !! Some "F2"%string = Some default_decoder /\
  _decoders self' !! Some "F3"%string = None.
Proof.
  intros Tf Tj calls resources self'.
  assert (Hrun : run calls (Viewer_new (collab := plain) resources None
                              (mk_Canvas "" [] [])) = (Ok tt, self'))
    by (vm_compute; reflexivity).
  split; [exact Hrun|].
  destruct (decoders_built_once_per_font (collab := plain) resources None
              (mk_Canvas "" [] []) calls self' Hrun)
    as (Hreads & _ & _ & Hlen & Hsize & Hcache).
  split; [exact Hreads|].
  split; [rewrite Hlen; vm_compute; reflexivity|].
  split; [rewrite Hsize; vm_compute; reflexivity|].
  split; [rewrite Hcache; vm_compute; reflexivity|].
  split; rewrite Hcache; vm_compute; reflexivity.
Defined.

(** C9, as stated, fails twice over. With a font F1 in the resources and
    none named F2, showing a string under each runs [Decoder(...)] once for
    two font names, F2 taking [default_decoder]; and an array holding no
    string, shown under F1, reads no decoder at all, so that nothing is built
    for the one font name used. *)
Lemma constructions_differ_from_fonts_shown :
  let Tf := fun n => call_method "on_Tf" (mk_Operator "Tf" [PName n; PInteger 9]) in
  let Tj := fun s => call_method "on_Tj" (mk_Operator "Tj" [PString s]) in
  let resources : gmap string unit := {["F1"%string := tt]} in
  let fresh := Viewer_new (collab := plain) resources None (mk_Canvas "" [] []) in
  let calls1 := [Tf "F1"; Tj "a"; Tf "F2"; Tj "b"]%string in
  let calls2 :=
    [Tf "F1"%string;
     call_method "on_TJ" (mk_Operator "TJ" [PArray [PInteger (-120)]])] in
  ((run calls1 fresh).1 = Ok tt /\
   length (decoder_constructions (run calls1 fresh).2) = 1%nat /\
   length (remove_dups (show_text_fonts (collab := plain) None calls1)) = 2%nat /\
   length (decoder_constructions (run calls1 fresh).2)
   <> length (remove_dups (show_text_fonts (collab := plain) None calls1))) /\
  ((run calls2 fresh).1 = Ok tt /\
   length (decoder_constructions (run calls2 fresh).2) = 0%nat /\
   decoder_reads (run calls2 fresh).2 = [] /\
   length (remove_dups (show_text_fonts (collab := plain) None calls2)) = 1%nat /\
   length (decoder_constructions (run calls2 fresh).2)
   <> length (remove_dups (show_text_fonts (collab := plain) None calls2))).
Proof. vm_compute. repeat split; first [reflexivity|discriminate]. Qed.
